(** * Environment checker: scripts/check-environment.ts

    A shallow embedding of the diagnostic script and the properties its
    specification states about it.  The script is a straight line of six
    probes that push results into one module-level array, followed by a
    summary that decides the exit code of the process. *)

From Stdlib Require Import String Ascii.
From Stdlib Require Import List NArith ZArith Bool Lia Permutation.
Import ListNotations.

Set Implicit Arguments.

(** ** JavaScript strings

    A JavaScript string is a sequence of UTF-16 code units; [length],
    [startsWith], [slice], [split] and [trim] all work on code units. *)

Module Js.

Definition jsstring := list N.

(** An ASCII literal of the source, as code units. *)
Definition lit (s : string) : jsstring :=
  map N_of_ascii (list_ascii_of_string s).
Arguments lit s%_string.

Definition eqb (s t : jsstring) : bool :=
  if list_eq_dec N.eq_dec s t then true else false.

(** [WhiteSpace] and [LineTerminator] of ECMAScript, the code units that
    [String.prototype.trim] and [parseInt] skip: TAB, LF, VT, FF, CR, SP,
    NBSP, the category Zs, LS, PS and the byte order mark. *)
Definition isWhiteSpace (c : N) : bool :=
  ((9 <=? c) && (c <=? 13)
   || (c =? 32) || (c =? 160) || (c =? 5760)
   || (8192 <=? c) && (c <=? 8202)
   || (c =? 8232) || (c =? 8233) || (c =? 8239) || (c =? 8287)
   || (c =? 12288) || (c =? 65279))%N.

Fixpoint trimStart (s : jsstring) : jsstring :=
  match s with
  | c :: s' => if isWhiteSpace c then trimStart s' else s
  | [] => []
  end.

Definition trimEnd (s : jsstring) : jsstring := rev (trimStart (rev s)).

(** [s.trim()] *)
Definition trim (s : jsstring) : jsstring := trimEnd (trimStart s).

(** [s.startsWith(p)] *)
Fixpoint startsWith (s p : jsstring) : bool :=
  match p, s with
  | [], _ => true
  | _ :: _, [] => false
  | a :: p', b :: s' => (a =? b)%N && startsWith s' p'
  end.

(** [s.slice(1)] *)
Definition slice1 (s : jsstring) : jsstring := tl s.

(** [s.split(sep)[0]] for a separator of one code unit: the code units
    before the first separator, all of [s] when there is none (the array
    [split] returns is never empty). *)
Fixpoint split_first (sep : N) (s : jsstring) : jsstring :=
  match s with
  | [] => []
  | c :: s' => if (c =? sep)%N then [] else c :: split_first sep s'
  end.

(** *** [parseInt(s)] without a radix

    ECMAScript's parseInt: skip leading white space, read one optional
    sign, switch to radix 16 on a [0x] or [0X] marker, then read the
    longest run of digits of the radix.  No digit gives NaN, here [None].
    The value kept here is the signed mathematical integer of the digits,
    before parseInt rounds it to a double: below 2^53 the two are the same
    number, above they can differ.  The script only compares the number
    with 18; rounding an integer to a double is monotone and leaves 17 and
    18 as they are, so the comparison on the integer is the comparison the
    script makes ([ge18_after_rounding]). *)

Definition digit_value (radix c : N) : option N :=
  let v :=
    if ((48 <=? c) && (c <=? 57))%N then Some (c - 48)%N
    else if ((97 <=? c) && (c <=? 122))%N then Some (c - 87)%N
    else if ((65 <=? c) && (c <=? 90))%N then Some (c - 55)%N
    else None in
  match v with
  | Some d => if (d <? radix)%N then Some d else None
  | None => None
  end.

(** The digits read so far are in [acc]; [seen] tells whether there is one. *)
Fixpoint read_digits (radix : N) (s : jsstring) (seen : bool) (acc : N)
  : option N :=
  match s with
  | [] => if seen then Some acc else None
  | c :: s' =>
      match digit_value radix c with
      | Some d => read_digits radix s' true (acc * radix + d)%N
      | None => if seen then Some acc else None
      end
  end.

(** The optional sign: one [+] or [-] is dropped. *)
Definition skip_sign (s : jsstring) : jsstring :=
  match s with
  | c :: r => if ((c =? 43) || (c =? 45))%N then r else s
  | [] => []
  end.

Definition sign_of (s : jsstring) : Z :=
  match s with
  | c :: _ => if (c =? 45)%N then (-1)%Z else 1%Z
  | [] => 1%Z
  end.

(** The radix and what is left to read: 16 past a [0x] or [0X], else 10. *)
Definition strip_prefix (s : jsstring) : N * jsstring :=
  match s with
  | c :: x :: r =>
      if ((c =? 48) && ((x =? 120) || (x =? 88)))%N then (16%N, r)
      else (10%N, s)
  | _ => (10%N, s)
  end.

Definition parseInt (input : jsstring) : option Z :=
  let S0 := trimStart input in
  let sign := sign_of S0 in
  let S1 := skip_sign S0 in
  let '(R, S2) := strip_prefix S1 in
  match read_digits R S2 false 0%N with
  | Some mathInt => Some (sign * Z.of_N mathInt)%Z
  | None => None
  end.

(** An array length in a template literal: its decimal digits. *)
Fixpoint digits_of_uint (d : Decimal.uint) : jsstring :=
  match d with
  | Decimal.Nil => []
  | Decimal.D0 d' => 48%N :: digits_of_uint d'
  | Decimal.D1 d' => 49%N :: digits_of_uint d'
  | Decimal.D2 d' => 50%N :: digits_of_uint d'
  | Decimal.D3 d' => 51%N :: digits_of_uint d'
  | Decimal.D4 d' => 52%N :: digits_of_uint d'
  | Decimal.D5 d' => 53%N :: digits_of_uint d'
  | Decimal.D6 d' => 54%N :: digits_of_uint d'
  | Decimal.D7 d' => 55%N :: digits_of_uint d'
  | Decimal.D8 d' => 56%N :: digits_of_uint d'
  | Decimal.D9 d' => 57%N :: digits_of_uint d'
  end.

Definition toString (n : nat) : jsstring := digits_of_uint (Nat.to_uint n).

(** [c.repeat(n)] for a string of one code unit. *)
Definition repeat1 (c : N) (n : nat) : jsstring := repeat c n.

End Js.

Import Js.

(** ** Data model *)

Inductive Status := pass | fail | warn.

Definition Status_eqb (s t : Status) : bool :=
  match s, t with
  | pass, pass | fail, fail | warn, warn => true
  | _, _ => false
  end.

(** [interface CheckResult] *)
Record CheckResult := {
  name : jsstring;
  status : Status;
  message : jsstring
}.

(** The value a rejected promise carries: an [Error], read through
    [error.message]. *)
Record JsError := { error_message : jsstring }.

(** ** The ambient environment

    What a run reads from outside: the environment variables, the version
    of the runtime, the file system, the browser engine and the colouring
    of chalk.  An awaited call either fulfils or rejects. *)

Inductive Promise (A : Type) :=
| Fulfilled (a : A)
| Rejected (e : JsError).
Arguments Rejected {A} e.

(** A page and a browser are the objects Playwright hands out; their
    methods settle as the object says. *)
Record Page := { goto : jsstring -> N -> Promise unit }.

Record Browser := {
  newPage : Promise Page;
  close : Promise unit
}.

Inductive Style :=
| green | yellow | red | cyan | white | bold_cyan | bold_green | bold_red.

Record Ambient := {
  process_env : jsstring -> option jsstring;
  process_version : jsstring;
  fs_ensureDir : jsstring -> Promise unit;
  fs_access : jsstring -> N -> Promise unit;
  (** [chromium.launch({ headless })], by the number of launches before it *)
  chromium_launch : bool -> nat -> Promise Browser;
  chalk : Style -> jsstring -> jsstring
}.

(** [fs.constants.W_OK] *)
Definition W_OK : N := 2.

(** ** The process: the results array, the console, and control flow *)

Record Process := {
  results : list CheckResult;
  stdout : list jsstring;
  stderr : list JsError;
  launches : nat
}.

(** [const results: CheckResult[] = []] and nothing printed yet. *)
Definition start : Process :=
  {| results := []; stdout := []; stderr := []; launches := 0 |}.

Inductive Completion (A : Type) :=
| Normal (a : A)
| Throw (e : JsError)
| Exit (code : Z).
Arguments Throw {A} e.
Arguments Exit {A} code.

Definition Async (A : Type) := Process -> Process * Completion A.

Definition ret {A} (a : A) : Async A := fun s => (s, Normal a).

Definition bind {A B} (c : Async A) (k : A -> Async B) : Async B :=
  fun s =>
    match c s with
    | (s', Normal a) => k a s'
    | (s', Throw e) => (s', Throw e)
    | (s', Exit code) => (s', Exit code)
    end.

Declare Scope async_scope.
Delimit Scope async_scope with async.
Notation "x <- c ;; k" := (bind c (fun x => k))
  (at level 61, c at next level, right associativity) : async_scope.
Notation "c ;; k" := (bind c (fun _ => k))
  (at level 61, right associativity) : async_scope.
Open Scope async_scope.

(** [try { body } catch (error) { handler }]: [process.exit] is not caught. *)
Definition try_catch {A} (body : Async A) (handler : JsError -> Async A)
  : Async A :=
  fun s =>
    match body s with
    | (s', Throw e) => handler e s'
    | r => r
    end.

Definition await {A} (p : Promise A) : Async A :=
  fun s =>
    (s, match p with Fulfilled a => Normal a | Rejected e => Throw e end).

(** [for (const x of xs) { body }] *)
Fixpoint for_of {A} (xs : list A) (body : A -> Async unit) : Async unit :=
  match xs with
  | [] => ret tt
  | x :: xs' => body x ;; for_of xs' body
  end.

Definition console_log (line : jsstring) : Async unit :=
  fun s =>
    ({| results := results s; stdout := stdout s ++ [line];
        stderr := stderr s; launches := launches s |}, Normal tt).

Definition results_push (r : CheckResult) : Async unit :=
  fun s =>
    ({| results := results s ++ [r]; stdout := stdout s;
        stderr := stderr s; launches := launches s |}, Normal tt).

Definition process_exit {A} (code : Z) : Async A := fun s => (s, Exit code).

Definition launch (a : Ambient) (headless : bool) : Async Browser :=
  fun s =>
    await (chromium_launch a headless (launches s))
      {| results := results s; stdout := stdout s;
         stderr := stderr s; launches := S (launches s) |}.

(** ** The script *)

Definition icon_pass : jsstring := [9989%N].
Definition icon_warn : jsstring := [9888%N; 65039%N].
Definition icon_fail : jsstring := [10060%N].

Definition log (a : Ambient) (result : CheckResult) : Async unit :=
  results_push result ;;
  let icon := if Status_eqb (status result) pass then icon_pass
              else if Status_eqb (status result) warn then icon_warn
              else icon_fail in
  let color := if Status_eqb (status result) pass then chalk a green
               else if Status_eqb (status result) warn then chalk a yellow
               else chalk a red in
  console_log (icon ++ lit " " ++ color (name result) ++ lit ": "
               ++ message result).

(** [process.env.NAME?.trim()] *)
Definition env_trimmed (a : Ambient) (var : string) : option jsstring :=
  option_map trim (process_env a (lit var)).

(** [!key] on a string or [undefined] *)
Definition not_key (key : option jsstring) : bool :=
  match key with
  | None => true
  | Some [] => true
  | Some (_ :: _) => false
  end.

Definition key_length (key : option jsstring) : nat :=
  match key with Some k => length k | None => 0 end.

Definition key_startsWith (key : option jsstring) (p : jsstring) : bool :=
  match key with Some k => startsWith k p | None => false end.

Definition checkAnthropicKey (a : Ambient) : Async unit :=
  let key := env_trimmed a "ANTHROPIC_API_KEY" in
  if not_key key then
    log a {| name := lit "Anthropic API Key"; status := fail;
             message :=
               lit "Not set. Run: export ANTHROPIC_API_KEY=your_key_here" |}
  else if negb (key_startsWith key (lit "sk-ant-")) then
    log a {| name := lit "Anthropic API Key"; status := warn;
             message :=
               lit "Key format looks unusual (should start with sk-ant-)" |}
  else if key_length key <? 50 then
    log a {| name := lit "Anthropic API Key"; status := warn;
             message :=
               lit "Key seems too short. Make sure you copied the full key." |}
  else
    log a {| name := lit "Anthropic API Key"; status := pass;
             message := lit "Set and format looks correct" |}.

Definition checkGeminiKey (a : Ambient) : Async unit :=
  let key := env_trimmed a "GEMINI_API_KEY" in
  if not_key key then
    log a {| name := lit "Gemini API Key"; status := fail;
             message :=
               lit "Not set. Run: export GEMINI_API_KEY=your_key_here" |}
  else if key_length key <? 30 then
    log a {| name := lit "Gemini API Key"; status := warn;
             message :=
               lit "Key seems too short. Make sure you copied the full key." |}
  else
    log a {| name := lit "Gemini API Key"; status := pass;
             message := lit "Set and format looks correct" |}.

Definition checkPlaywright (a : Ambient) : Async unit :=
  try_catch
    (browser <- launch a true ;;
     await (close browser) ;;
     log a {| name := lit "Playwright Browser"; status := pass;
              message := lit "Chromium is installed and working" |})
    (fun error =>
     log a {| name := lit "Playwright Browser"; status := fail;
              message := lit "Browser failed: " ++ error_message error
                         ++ lit ". Run: npx playwright install chromium" |}).

Definition dirs : list jsstring := [lit "./cloned-pages"; lit "./screenshots"].

(** The body of the loop of [checkDirectories], for one [dir]. *)
Definition checkDirectories_body (a : Ambient) (dir : jsstring) : Async unit :=
  try_catch
    (await (fs_ensureDir a dir) ;;
     await (fs_access a dir W_OK) ;;
     log a {| name := lit "Directory " ++ dir; status := pass;
              message := lit "Exists and writable" |})
    (fun _ =>
     log a {| name := lit "Directory " ++ dir; status := fail;
              message := lit "Cannot create or write to directory" |}).

Definition checkDirectories (a : Ambient) : Async unit :=
  for_of dirs (checkDirectories_body a).

Definition checkNetwork (a : Ambient) : Async unit :=
  try_catch
    (browser <- launch a true ;;
     page <- await (newPage browser) ;;
     await (goto page (lit "https://example.com") 10000%N) ;;
     await (close browser) ;;
     log a {| name := lit "Network Access"; status := pass;
              message := lit "Can reach external websites" |})
    (fun _ =>
     log a {| name := lit "Network Access"; status := fail;
              message :=
                lit "Cannot reach websites. Check your internet connection." |}).

(** [major >= 18], false on NaN *)
Definition ge18 (major : option Z) : bool :=
  match major with
  | Some n => (18 <=? n)%Z
  | None => false
  end.

(** [parseInt(version.slice(1).split('.')[0])] *)
Definition major_of (version : jsstring) : option Z :=
  parseInt (split_first 46 (slice1 version)).

Definition checkNodeVersion (a : Ambient) : Async unit :=
  let version := process_version a in
  let major := major_of version in
  if ge18 major then
    log a {| name := lit "Node.js Version"; status := pass;
             message := version ++ lit " (18+ required)" |}
  else
    log a {| name := lit "Node.js Version"; status := fail;
             message := version ++ lit " is too old. Need Node 18+" |}.

Definition nl : jsstring := [10%N].

Definition banner : jsstring :=
  nl ++ [9556%N] ++ repeat1 9552 62 ++ [9559%N] ++ nl
  ++ [9553%N]
  ++ lit "              ENVIRONMENT CHECK - Geekout Vegas 2026          "
  ++ [9553%N] ++ nl
  ++ [9562%N] ++ repeat1 9552 62 ++ [9565%N] ++ nl.

Definition party : jsstring := [55356%N; 57225%N].

Definition has_status (st : Status) (r : CheckResult) : bool :=
  Status_eqb (status r) st.

(** The summary at the end of [main], over the results array as the
    probes left it. *)
Definition summary (a : Ambient) : Async unit :=
  fun s =>
    let failed := filter (has_status fail) (results s) in
    let warned := filter (has_status warn) (results s) in
    let passed := filter (has_status pass) (results s) in
    (if length failed =? 0 then
       console_log (chalk a bold_green
         (party ++ lit " ALL CHECKS PASSED! (" ++ toString (length passed)
          ++ lit "/" ++ toString (length (results s)) ++ lit ")")) ;;
       (if 0 <? length warned then
          console_log (chalk a yellow
            (lit "   " ++ toString (length warned)
             ++ lit " warning(s) - review above"))
        else ret tt) ;;
       console_log (chalk a cyan
         (nl ++ lit "   Ready to start! Type: claude" ++ nl))
     else
       console_log (chalk a bold_red
         (icon_fail ++ lit " " ++ toString (length failed)
          ++ lit " CHECK(S) FAILED")) ;;
       console_log (chalk a white
         (nl ++ lit "   Fix the issues above, then run: npm run check" ++ nl)) ;;
       process_exit 1) s.

Definition main (a : Ambient) : Async unit :=
  console_log (chalk a bold_cyan banner) ;;
  checkNodeVersion a ;;
  checkAnthropicKey a ;;
  checkGeminiKey a ;;
  checkDirectories a ;;
  checkPlaywright a ;;
  checkNetwork a ;;
  console_log (nl ++ repeat1 9472 60 ++ nl) ;;
  summary a.

Definition console_error (e : JsError) (s : Process) : Process :=
  {| results := results s; stdout := stdout s;
     stderr := stderr s ++ [e]; launches := launches s |}.

(** The exit code of the process: the argument of [process.exit] when the
    script calls it, 0 when the script runs to its end. *)
Definition exit_code {A} (c : Completion A) : Z :=
  match c with
  | Exit code => code
  | _ => 0%Z
  end.

(** [main().catch(console.error)]: the state the process ends in and its
    exit code. *)
Definition check_environment (a : Ambient) : Process * Z :=
  let '(s, c) := main a start in
  (match c with Throw e => console_error e s | _ => s end, exit_code c).

(** ** Vocabulary of the properties *)

(** The probe [c], started in [s], completes normally and leaves the
    results array one element longer, [r] at its end. *)
Definition emits (c : Async unit) (s : Process) (r : CheckResult) : Prop :=
  exists s', c s = (s', Normal tt) /\ results s' = results s ++ [r].

(** How many results have the status [st]. *)
Definition tally (st : Status) (rs : list CheckResult) : nat :=
  length (filter (has_status st) rs).

(** Whether an awaited call fulfilled. *)
Definition settled {A} (p : Promise A) : bool :=
  match p with
  | Fulfilled _ => true
  | Rejected _ => false
  end.

(** The awaited calls of the three try blocks, in their order: the block
    reaches its last statement when all of them fulfil. *)
Definition dir_ok (a : Ambient) (dir : jsstring) : bool :=
  settled (fs_ensureDir a dir) && settled (fs_access a dir W_OK).

Definition browser_ok (launched : Promise Browser) : bool :=
  match launched with
  | Fulfilled b => settled (close b)
  | Rejected _ => false
  end.

Definition network_ok (launched : Promise Browser) : bool :=
  match launched with
  | Fulfilled b =>
      match newPage b with
      | Fulfilled p =>
          settled (goto p (lit "https://example.com") 10000%N)
          && settled (close b)
      | Rejected _ => false
      end
  | Rejected _ => false
  end.

(** The error a try block catches: the one of the first call that rejects. *)
Definition browser_error (launched : Promise Browser) : option JsError :=
  match launched with
  | Rejected e => Some e
  | Fulfilled b =>
      match close b with
      | Rejected e => Some e
      | Fulfilled _ => None
      end
  end.

Definition network_error (launched : Promise Browser) : option JsError :=
  match launched with
  | Rejected e => Some e
  | Fulfilled b =>
      match newPage b with
      | Rejected e => Some e
      | Fulfilled p =>
          match goto p (lit "https://example.com") 10000%N with
          | Rejected e => Some e
          | Fulfilled _ =>
              match close b with
              | Rejected e => Some e
              | Fulfilled _ => None
              end
          end
      end
  end.

Definition verdict (ok : bool) : Status := if ok then pass else fail.

(** The status the specification gives the primary key probe, from the
    value of the variable: its words, to be compared with the probe. *)
Definition spec_primary_status (value : option jsstring) : Status :=
  match value with
  | None => fail
  | Some v =>
      match trim v with
      | [] => fail
      | t => if negb (startsWith t (lit "sk-ant-")) then warn
             else if length t <? 50 then warn
             else pass
      end
  end.

(** The same for the secondary key probe: no prefix, threshold 30. *)
Definition spec_secondary_status (value : option jsstring) : Status :=
  match value with
  | None => fail
  | Some v =>
      match trim v with
      | [] => fail
      | t => if length t <? 30 then warn else pass
      end
  end.

(** Decimal digits and the number they write. *)
Definition is_digit (c : N) : bool := ((48 <=? c) && (c <=? 57))%N.

Definition decimal_value (ds : jsstring) : N :=
  fold_left (fun acc c => (acc * 10 + (c - 48))%N) ds 0%N.

Definition begins_with_digit (s : jsstring) : bool :=
  match s with
  | c :: _ => is_digit c
  | [] => false
  end.

(** The numeric prefix in the words of the specification: the decimal
    digits a string begins with. *)
Fixpoint spec_numeric_prefix (s : jsstring) : jsstring :=
  match s with
  | c :: r => if is_digit c then c :: spec_numeric_prefix r else []
  | [] => []
  end.

(** Whether a string begins with the marker [0x] or [0X]. *)
Definition hex_marked (s : jsstring) : bool :=
  match s with
  | c :: x :: _ => ((c =? 48) && ((x =? 120) || (x =? 88)))%N
  | _ => false
  end.

(** The code units [checkNodeVersion] hands to parseInt. *)
Definition major_segment (version : jsstring) : jsstring :=
  split_first 46 (slice1 version).

(** *** Ambient inputs that two runs share

    Two environments give the same inputs when the variables and the
    version are equal and every call settles the same way in both; the
    errors of the rejections and the colouring are left free. *)

Definition same_outcome {A B} (p : Promise A) (q : Promise B) : Prop :=
  settled p = settled q.

Definition same_page (p q : Promise Page) : Prop :=
  match p, q with
  | Fulfilled x, Fulfilled y =>
      forall url timeout, same_outcome (goto x url timeout) (goto y url timeout)
  | Rejected _, Rejected _ => True
  | _, _ => False
  end.

Definition same_browser (p q : Promise Browser) : Prop :=
  match p, q with
  | Fulfilled x, Fulfilled y =>
      same_page (newPage x) (newPage y) /\ same_outcome (close x) (close y)
  | Rejected _, Rejected _ => True
  | _, _ => False
  end.

Record same_inputs (a1 a2 : Ambient) : Prop := {
  same_env : forall var, process_env a1 var = process_env a2 var;
  same_version : process_version a1 = process_version a2;
  same_ensureDir :
    forall dir, same_outcome (fs_ensureDir a1 dir) (fs_ensureDir a2 dir);
  same_access :
    forall dir mode,
      same_outcome (fs_access a1 dir mode) (fs_access a2 dir mode);
  same_launch :
    forall headless n,
      same_browser (chromium_launch a1 headless n)
                   (chromium_launch a2 headless n)
}.

(** [logs c s r k]: as [emits], and [c] launched [k] browsers. *)
Definition logs (c : Async unit) (s : Process) (r : CheckResult) (k : nat)
  : Prop :=
  exists s',
    c s = (s', Normal tt)
    /\ results s' = results s ++ [r]
    /\ launches s' = k + launches s.

(** The names of the two variables. *)
Definition anthropic_var : jsstring := lit "ANTHROPIC_API_KEY".
Definition gemini_var : jsstring := lit "GEMINI_API_KEY".

(** The message of the browser probe on the error [e]. *)
Definition browser_failed (e : JsError) : jsstring :=
  lit "Browser failed: " ++ error_message e
  ++ lit ". Run: npx playwright install chromium".

(** The one result the network probe logs on a failure. *)
Definition network_failure : CheckResult :=
  {| name := lit "Network Access"; status := fail;
     message :=
       lit "Cannot reach websites. Check your internet connection." |}.

(** The names of the seven results of a run, in their order. *)
Definition probe_names : list jsstring :=
  [lit "Node.js Version"; lit "Anthropic API Key"; lit "Gemini API Key";
   lit "Directory ./cloned-pages"; lit "Directory ./screenshots";
   lit "Playwright Browser"; lit "Network Access"].

(** The seven statuses of a run, from what the environment holds: the
    first launch is the one of the browser probe, the second the one of
    the network probe. *)
Definition statuses_of (a : Ambient) : list Status :=
  [verdict (ge18 (major_of (process_version a)));
   spec_primary_status (process_env a anthropic_var);
   spec_secondary_status (process_env a gemini_var);
   verdict (dir_ok a (lit "./cloned-pages"));
   verdict (dir_ok a (lit "./screenshots"));
   verdict (browser_ok (chromium_launch a true 0));
   verdict (network_ok (chromium_launch a true 1))].

(** The lines of the closing summary. *)
Definition success_banner (a : Ambient) (passed total : nat) : jsstring :=
  chalk a bold_green
    (party ++ lit " ALL CHECKS PASSED! (" ++ toString passed ++ lit "/"
     ++ toString total ++ lit ")").

Definition warning_note (a : Ambient) (warned : nat) : jsstring :=
  chalk a yellow
    (lit "   " ++ toString warned ++ lit " warning(s) - review above").

Definition ready_hint (a : Ambient) : jsstring :=
  chalk a cyan (nl ++ lit "   Ready to start! Type: claude" ++ nl).

Definition failure_banner (a : Ambient) (failed : nat) : jsstring :=
  chalk a bold_red
    (icon_fail ++ lit " " ++ toString failed ++ lit " CHECK(S) FAILED").

Definition remediation_hint (a : Ambient) : jsstring :=
  chalk a white
    (nl ++ lit "   Fix the issues above, then run: npm run check" ++ nl).

(** ** Sample environments *)

Definition no_color : Style -> jsstring -> jsstring := fun _ text => text.

Definition env_of (anthropic gemini : option jsstring)
  : jsstring -> option jsstring :=
  fun var =>
    if eqb var (lit "ANTHROPIC_API_KEY") then anthropic
    else if eqb var (lit "GEMINI_API_KEY") then gemini
    else None.

Definition page_ok : Page := {| goto := fun _ _ => Fulfilled tt |}.

Definition browser_fine : Browser :=
  {| newPage := Fulfilled page_ok; close := Fulfilled tt |}.

(** A machine where everything is in place. *)
Definition healthy : Ambient :=
  {| process_env :=
       env_of (Some (lit "sk-ant-" ++ repeat1 97 50))
              (Some (repeat1 98 40));
     process_version := lit "v20.11.0";
     fs_ensureDir := fun _ => Fulfilled tt;
     fs_access := fun _ _ => Fulfilled tt;
     chromium_launch := fun _ _ => Fulfilled browser_fine;
     chalk := no_color |}.

(** A machine without the browser, the launch failing with [text]. *)
Definition no_browser (text : string) : Ambient :=
  {| process_env := process_env healthy;
     process_version := process_version healthy;
     fs_ensureDir := fs_ensureDir healthy;
     fs_access := fs_access healthy;
     chromium_launch := fun _ _ => Rejected {| error_message := lit text |};
     chalk := no_color |}.

(** A runtime that reports the version [text]. *)
Definition with_version (text : string) : Ambient :=
  {| process_env := process_env healthy;
     process_version := lit text;
     fs_ensureDir := fs_ensureDir healthy;
     fs_access := fs_access healthy;
     chromium_launch := chromium_launch healthy;
     chalk := no_color |}.

(** The keys set to [anthropic] and [gemini]. *)
Definition with_keys (anthropic gemini : option jsstring) : Ambient :=
  {| process_env := env_of anthropic gemini;
     process_version := process_version healthy;
     fs_ensureDir := fs_ensureDir healthy;
     fs_access := fs_access healthy;
     chromium_launch := chromium_launch healthy;
     chalk := no_color |}.

(** *** The console transcript

    The line [log] prints for a result: the icon of its status, the name
    in the colour of its status, the message. *)
Definition icon_of (st : Status) : jsstring :=
  match st with
  | pass => icon_pass
  | warn => icon_warn
  | fail => icon_fail
  end.

Definition color_of (st : Status) : Style :=
  match st with
  | pass => green
  | warn => yellow
  | fail => red
  end.

Definition render (a : Ambient) (r : CheckResult) : jsstring :=
  icon_of (status r) ++ lit " " ++ chalk a (color_of (status r)) (name r)
  ++ lit ": " ++ message r.

(** The process after a probe that launched [k] browsers and logged [r]. *)
Definition after (a : Ambient) (r : CheckResult) (k : nat) (s : Process)
  : Process :=
  {| results := results s ++ [r];
     stdout := stdout s ++ [render a r];
     stderr := stderr s;
     launches := k + launches s |}.

(** The rule [main] prints between the probes and the summary. *)
Definition separator : jsstring := nl ++ repeat1 9472 60 ++ nl.

(** The lines of the summary, from the results. *)
Definition summary_lines (a : Ambient) (rs : list CheckResult)
  : list jsstring :=
  if tally fail rs =? 0 then
    [success_banner a (tally pass rs) (length rs)]
    ++ (if 0 <? tally warn rs then [warning_note a (tally warn rs)] else [])
    ++ [ready_hint a]
  else [failure_banner a (tally fail rs); remediation_hint a].

(** The results the two key probes can log, as the source writes them. *)
Definition anthropic_results : list CheckResult :=
  [ {| name := lit "Anthropic API Key"; status := fail;
       message :=
         lit "Not set. Run: export ANTHROPIC_API_KEY=your_key_here" |};
    {| name := lit "Anthropic API Key"; status := warn;
       message :=
         lit "Key format looks unusual (should start with sk-ant-)" |};
    {| name := lit "Anthropic API Key"; status := warn;
       message :=
         lit "Key seems too short. Make sure you copied the full key." |};
    {| name := lit "Anthropic API Key"; status := pass;
       message := lit "Set and format looks correct" |} ].

Definition gemini_results : list CheckResult :=
  [ {| name := lit "Gemini API Key"; status := fail;
       message := lit "Not set. Run: export GEMINI_API_KEY=your_key_here" |};
    {| name := lit "Gemini API Key"; status := warn;
       message :=
         lit "Key seems too short. Make sure you copied the full key." |};
    {| name := lit "Gemini API Key"; status := pass;
       message := lit "Set and format looks correct" |} ].

(** Whether a variable holds a value that is not empty once trimmed. *)
Definition key_present (value : option jsstring) : bool :=
  negb (not_key (option_map trim value)).

(** A machine whose directories cannot be written. *)
Definition read_only : Ambient :=
  {| process_env := env_of (Some (lit "  ")) (Some (lit "abc"));
     process_version := lit "v20.11.0";
     fs_ensureDir := fun _ => Fulfilled tt;
     fs_access := fun _ _ => Rejected {| error_message := lit "EACCES" |};
     chromium_launch :=
       fun _ _ =>
         Fulfilled
           {| newPage := Fulfilled {| goto := fun _ _ => Fulfilled tt |};
              close := Fulfilled tt |};
     chalk := fun _ text => text |}.

(** A process whose results so far have the statuses [sts]. *)
Definition result_with (st : Status) : CheckResult :=
  {| name := lit "probe"; status := st; message := [] |}.

Definition state_with (sts : list Status) : Process :=
  {| results := map result_with sts; stdout := []; stderr := [];
     launches := 0 |}.

(** ** Running the probes *)

Arguments lit : simpl never.
Arguments startsWith : simpl never.
Arguments trim : simpl never.

Ltac run_block :=
  unfold logs, try_catch, launch, await, bind, log, results_push,
    console_log; cbn.

Lemma logs_emits c s r k : logs c s r k -> emits c s r.
Proof.
  intros (s' & Hrun & Hres & _). exists s'. split; assumption.
Qed.

Lemma emits_unique c s r r' : emits c s r -> emits c s r' -> r = r'.
Proof.
  intros (s1 & Hrun1 & Hres1) (s2 & Hrun2 & Hres2).
  rewrite Hrun1 in Hrun2. injection Hrun2 as <-.
  rewrite Hres1 in Hres2.
  apply app_inv_head in Hres2. congruence.
Qed.

Lemma log_logs a r s : logs (log a r) s r 0.
Proof.
  unfold logs, log, bind, results_push, console_log. simpl.
  eexists. split; [reflexivity|]. simpl. split; reflexivity.
Qed.

Lemma bind_normal {A B} (c : Async A) (k : A -> Async B) s s' x :
  c s = (s', Normal x) -> bind c k s = k x s'.
Proof.
  intros H. unfold bind. rewrite H. reflexivity.
Qed.

(** The primary key probe, branch by branch. *)

Lemma anthropic_unset a s :
  not_key (option_map trim (process_env a anthropic_var)) = true ->
  logs (checkAnthropicKey a) s
    {| name := lit "Anthropic API Key"; status := fail;
       message :=
         lit "Not set. Run: export ANTHROPIC_API_KEY=your_key_here" |} 0.
Proof.
  intros H. unfold checkAnthropicKey, env_trimmed.
  fold anthropic_var. rewrite H. apply log_logs.
Qed.

Lemma anthropic_unusual a s v :
  process_env a anthropic_var = Some v ->
  trim v <> [] ->
  startsWith (trim v) (lit "sk-ant-") = false ->
  logs (checkAnthropicKey a) s
    {| name := lit "Anthropic API Key"; status := warn;
       message :=
         lit "Key format looks unusual (should start with sk-ant-)" |} 0.
Proof.
  intros Hv Hne Hp. unfold checkAnthropicKey, env_trimmed.
  fold anthropic_var. rewrite Hv. cbn [option_map].
  destruct (trim v) as [|c t] eqn:Ht; [congruence|].
  cbn [not_key key_startsWith]. rewrite Hp. cbn [negb].
  apply log_logs.
Qed.

Lemma anthropic_short a s v :
  process_env a anthropic_var = Some v ->
  startsWith (trim v) (lit "sk-ant-") = true ->
  length (trim v) < 50 ->
  logs (checkAnthropicKey a) s
    {| name := lit "Anthropic API Key"; status := warn;
       message :=
         lit "Key seems too short. Make sure you copied the full key." |} 0.
Proof.
  intros Hv Hp Hlen. unfold checkAnthropicKey, env_trimmed.
  fold anthropic_var. rewrite Hv. cbn [option_map].
  destruct (trim v) as [|c t] eqn:Ht; [discriminate Hp|].
  cbn [not_key key_startsWith key_length]. rewrite Hp. cbn [negb].
  apply Nat.ltb_lt in Hlen. rewrite Hlen. apply log_logs.
Qed.

Lemma anthropic_pass a s v :
  process_env a anthropic_var = Some v ->
  startsWith (trim v) (lit "sk-ant-") = true ->
  50 <= length (trim v) ->
  logs (checkAnthropicKey a) s
    {| name := lit "Anthropic API Key"; status := pass;
       message := lit "Set and format looks correct" |} 0.
Proof.
  intros Hv Hp Hlen. unfold checkAnthropicKey, env_trimmed.
  fold anthropic_var. rewrite Hv. cbn [option_map].
  destruct (trim v) as [|c t] eqn:Ht; [discriminate Hp|].
  cbn [not_key key_startsWith key_length]. rewrite Hp. cbn [negb].
  apply Nat.ltb_ge in Hlen. rewrite Hlen. apply log_logs.
Qed.

(** The four branches cover every value of the variable. *)
Lemma anthropic_cases a :
  not_key (option_map trim (process_env a anthropic_var)) = true
  \/ exists v,
       process_env a anthropic_var = Some v /\ trim v <> []
       /\ (startsWith (trim v) (lit "sk-ant-") = false
           \/ startsWith (trim v) (lit "sk-ant-") = true
              /\ (length (trim v) < 50 \/ 50 <= length (trim v))).
Proof.
  destruct (process_env a anthropic_var) as [v|]; [|left; reflexivity].
  cbn [option_map].
  destruct (trim v) as [|c t] eqn:Ht; [left; reflexivity|].
  right. exists v. rewrite Ht. split; [reflexivity|].
  split; [discriminate|].
  destruct (startsWith (c :: t) (lit "sk-ant-")); [right|left; reflexivity].
  split; [reflexivity|]. lia.
Qed.

Lemma primary_status a s :
  exists r,
    logs (checkAnthropicKey a) s r 0
    /\ name r = lit "Anthropic API Key"
    /\ status r = spec_primary_status (process_env a anthropic_var).
Proof.
  destruct (anthropic_cases a)
    as [Hunset | (v & Hv & Hne & [Hp | (Hp & [Hlen | Hlen])])].
  - eexists. split; [apply anthropic_unset; exact Hunset|].
    split; [reflexivity|]. cbn [status].
    destruct (process_env a anthropic_var) as [v|]; [|reflexivity].
    cbn [option_map not_key spec_primary_status] in *.
    destruct (trim v); [reflexivity|discriminate].
  - eexists. split; [eapply anthropic_unusual; eassumption|].
    split; [reflexivity|]. cbn [status]. rewrite Hv.
    cbn [spec_primary_status].
    destruct (trim v) as [|c t]; [congruence|]. rewrite Hp. reflexivity.
  - eexists. split; [eapply anthropic_short; eassumption|].
    split; [reflexivity|]. cbn [status]. rewrite Hv.
    cbn [spec_primary_status]. apply Nat.ltb_lt in Hlen.
    destruct (trim v) as [|c t]; [congruence|].
    rewrite Hp, Hlen. reflexivity.
  - eexists. split; [eapply anthropic_pass; eassumption|].
    split; [reflexivity|]. cbn [status]. rewrite Hv.
    cbn [spec_primary_status]. apply Nat.ltb_ge in Hlen.
    destruct (trim v) as [|c t]; [congruence|].
    rewrite Hp, Hlen. reflexivity.
Qed.

(** The secondary key probe, branch by branch. *)

Lemma gemini_unset a s :
  not_key (option_map trim (process_env a gemini_var)) = true ->
  logs (checkGeminiKey a) s
    {| name := lit "Gemini API Key"; status := fail;
       message := lit "Not set. Run: export GEMINI_API_KEY=your_key_here" |} 0.
Proof.
  intros H. unfold checkGeminiKey, env_trimmed.
  fold gemini_var. rewrite H. apply log_logs.
Qed.

Lemma gemini_short a s v :
  process_env a gemini_var = Some v ->
  trim v <> [] ->
  length (trim v) < 30 ->
  logs (checkGeminiKey a) s
    {| name := lit "Gemini API Key"; status := warn;
       message :=
         lit "Key seems too short. Make sure you copied the full key." |} 0.
Proof.
  intros Hv Hne Hlen. unfold checkGeminiKey, env_trimmed.
  fold gemini_var. rewrite Hv. cbn [option_map].
  destruct (trim v) as [|c t] eqn:Ht; [congruence|].
  cbn [not_key key_length].
  apply Nat.ltb_lt in Hlen. rewrite Hlen. apply log_logs.
Qed.

Lemma gemini_pass a s v :
  process_env a gemini_var = Some v ->
  30 <= length (trim v) ->
  logs (checkGeminiKey a) s
    {| name := lit "Gemini API Key"; status := pass;
       message := lit "Set and format looks correct" |} 0.
Proof.
  intros Hv Hlen. unfold checkGeminiKey, env_trimmed.
  fold gemini_var. rewrite Hv. cbn [option_map].
  destruct (trim v) as [|c t] eqn:Ht; [cbn in Hlen; lia|].
  cbn [not_key key_length].
  apply Nat.ltb_ge in Hlen. rewrite Hlen. apply log_logs.
Qed.

Lemma secondary_status a s :
  exists r,
    logs (checkGeminiKey a) s r 0
    /\ name r = lit "Gemini API Key"
    /\ status r = spec_secondary_status (process_env a gemini_var).
Proof.
  destruct (process_env a gemini_var) as [v|] eqn:Hv.
  - destruct (trim v) as [|c t] eqn:Ht.
    + eexists. split.
      * apply gemini_unset. rewrite Hv. cbn [option_map]. rewrite Ht.
        reflexivity.
      * split; [reflexivity|]. cbn [status spec_secondary_status].
        rewrite Ht. reflexivity.
    + destruct (Nat.ltb_spec (length (trim v)) 30) as [Hlen | Hlen].
      * eexists. split.
        -- apply (gemini_short a s Hv); [rewrite Ht; discriminate|exact Hlen].
        -- split; [reflexivity|]. cbn [status spec_secondary_status].
           rewrite Ht. rewrite <- Ht.
           apply Nat.ltb_lt in Hlen. rewrite Hlen. reflexivity.
      * eexists. split; [apply (gemini_pass a s Hv Hlen)|].
        split; [reflexivity|]. cbn [status spec_secondary_status].
        rewrite Ht. rewrite <- Ht.
        apply Nat.ltb_ge in Hlen. rewrite Hlen. reflexivity.
  - eexists. split.
    + apply gemini_unset. rewrite Hv. reflexivity.
    + split; reflexivity.
Qed.

(** The runtime version probe. *)

Lemma version_status a s :
  exists r,
    logs (checkNodeVersion a) s r 0
    /\ name r = lit "Node.js Version"
    /\ status r = verdict (ge18 (major_of (process_version a))).
Proof.
  unfold checkNodeVersion.
  destruct (ge18 (major_of (process_version a))).
  - eexists. split; [apply log_logs|]. split; reflexivity.
  - eexists. split; [apply log_logs|]. split; reflexivity.
Qed.

(** The probes with a try block: the last statement of the block logs the
    pass, any rejection before it reaches the handler. *)

Lemma directory_status a s dir :
  exists r,
    logs (checkDirectories_body a dir) s r 0
    /\ name r = lit "Directory " ++ dir
    /\ status r = verdict (dir_ok a dir)
    /\ (status r = fail ->
        message r = lit "Cannot create or write to directory").
Proof.
  unfold checkDirectories_body, dir_ok.
  destruct (fs_ensureDir a dir) as [[]|e1] eqn:H1;
    [destruct (fs_access a dir W_OK) as [[]|e2] eqn:H2|];
    eexists; (split; [run_block; rewrite ?H1, ?H2; cbn;
                      eexists; split; [reflexivity|split; reflexivity]|]);
    cbn; repeat split; try reflexivity; discriminate.
Qed.

Lemma directories_status a s :
  exists s' r1 r2,
    checkDirectories a s = (s', Normal tt)
    /\ results s' = results s ++ [r1; r2]
    /\ launches s' = launches s
    /\ map name [r1; r2]
       = [lit "Directory ./cloned-pages"; lit "Directory ./screenshots"]
    /\ map status [r1; r2]
       = [verdict (dir_ok a (lit "./cloned-pages"));
          verdict (dir_ok a (lit "./screenshots"))].
Proof.
  destruct (directory_status a s (lit "./cloned-pages"))
    as (r1 & (s1 & Hrun1 & Hres1 & Hl1) & Hn1 & Hs1 & _).
  destruct (directory_status a s1 (lit "./screenshots"))
    as (r2 & (s2 & Hrun2 & Hres2 & Hl2) & Hn2 & Hs2 & _).
  exists s2, r1, r2.
  unfold checkDirectories, dirs. cbn [for_of].
  rewrite (bind_normal _ _ _ Hrun1), (bind_normal _ _ _ Hrun2).
  split; [reflexivity|].
  split; [rewrite Hres2, Hres1, <- app_assoc; reflexivity|].
  split; [cbn in *; congruence|].
  cbn [map]. rewrite Hn1, Hn2, Hs1, Hs2. split; reflexivity.
Qed.

Lemma playwright_status a s :
  exists r,
    logs (checkPlaywright a) s r 1
    /\ name r = lit "Playwright Browser"
    /\ status r = verdict (browser_ok (chromium_launch a true (launches s)))
    /\ message r
       = match browser_error (chromium_launch a true (launches s)) with
         | Some e => browser_failed e
         | None => lit "Chromium is installed and working"
         end.
Proof.
  unfold checkPlaywright, browser_ok, browser_error.
  destruct (chromium_launch a true (launches s)) as [b|e] eqn:Hl;
    [destruct (close b) as [[]|e] eqn:Hc|];
    eexists; (split; [run_block; rewrite ?Hl; cbn; rewrite ?Hc; cbn;
                      eexists; split; [reflexivity|split; reflexivity]|]);
    cbn; repeat split; reflexivity.
Qed.

Lemma network_status a s :
  exists r,
    logs (checkNetwork a) s r 1
    /\ name r = lit "Network Access"
    /\ status r = verdict (network_ok (chromium_launch a true (launches s)))
    /\ (status r = fail -> r = network_failure).
Proof.
  unfold checkNetwork, network_ok.
  destruct (chromium_launch a true (launches s)) as [b|e] eqn:Hl;
    [destruct (newPage b) as [p|e] eqn:Hp;
     [destruct (goto p (lit "https://example.com") 10000%N) as [[]|e] eqn:Hg;
      [destruct (close b) as [[]|e] eqn:Hc|]|]|];
    eexists; (split; [run_block; rewrite ?Hl; cbn; rewrite ?Hp; cbn;
                      rewrite ?Hg; cbn; rewrite ?Hc; cbn;
                      eexists; split; [reflexivity|split; reflexivity]|]);
    cbn; repeat split; try reflexivity; discriminate.
Qed.

(** ** The run as a whole *)

Lemma bind_console_log {B} line (k : unit -> Async B) s :
  bind (console_log line) k s = k tt (fst (console_log line s)).
Proof. reflexivity. Qed.

Lemma main_runs a :
  exists s,
    main a start = summary a s
    /\ map name (results s) = probe_names
    /\ map status (results s) = statuses_of a.
Proof.
  unfold main.
  rewrite bind_console_log.
  set (s0 := fst (console_log (chalk a bold_cyan banner) start)).
  destruct (version_status a s0) as (r1 & (s1 & H1 & R1 & L1) & N1 & S1).
  rewrite (bind_normal _ _ _ H1).
  destruct (primary_status a s1) as (r2 & (s2 & H2 & R2 & L2) & N2 & S2).
  rewrite (bind_normal _ _ _ H2).
  destruct (secondary_status a s2) as (r3 & (s3 & H3 & R3 & L3) & N3 & S3).
  rewrite (bind_normal _ _ _ H3).
  destruct (directories_status a s3)
    as (s4 & r4 & r5 & H4 & R4 & L4 & N4 & S4).
  rewrite (bind_normal _ _ _ H4).
  destruct (playwright_status a s4)
    as (r6 & (s5 & H5 & R5 & L5) & N5 & S5 & _).
  rewrite (bind_normal _ _ _ H5).
  destruct (network_status a s5)
    as (r7 & (s6 & H6 & R6 & L6) & N6 & S6 & _).
  rewrite (bind_normal _ _ _ H6).
  rewrite bind_console_log.
  set (s7 := fst (console_log (nl ++ repeat1 9472 60 ++ nl) s6)).
  exists s7.
  assert (Hl4 : launches s4 = 0).
  { rewrite L4, L3, L2, L1. reflexivity. }
  assert (Hl5 : launches s5 = 1).
  { rewrite L5, Hl4. reflexivity. }
  assert (Hres : results s7 = [r1; r2; r3; r4; r5; r6; r7]).
  { subst s7. cbn [console_log fst results].
    rewrite R6, R5, R4, R3, R2, R1. reflexivity. }
  split; [reflexivity|]. rewrite Hres. cbn [map] in *.
  injection N4 as N4 N4'. injection S4 as S4 S4'.
  rewrite Hl4 in S5. rewrite Hl5 in S6.
  unfold probe_names, statuses_of.
  rewrite N1, N2, N3, N4, N4', N5, N6, S1, S2, S3, S4, S4', S5, S6.
  split; reflexivity.
Qed.

Lemma tally_cons st r rs :
  tally st (r :: rs)
  = (if Status_eqb (status r) st then 1 else 0) + tally st rs.
Proof.
  unfold tally. cbn [filter]. unfold has_status at 1.
  destruct (Status_eqb (status r) st); reflexivity.
Qed.

Lemma tally_partition rs :
  tally pass rs + tally warn rs + tally fail rs = length rs.
Proof.
  induction rs as [|r rs IH]; [reflexivity|].
  rewrite !tally_cons. cbn [length].
  destruct (status r); cbn [Status_eqb]; lia.
Qed.

Lemma tally_statuses st rs rs' :
  map status rs = map status rs' -> tally st rs = tally st rs'.
Proof.
  revert rs'.
  induction rs as [|r rs IH]; intros [|r' rs'] H; try discriminate.
  - reflexivity.
  - cbn [map] in H. injection H as Hr H.
    rewrite !tally_cons, Hr, (IH _ H). reflexivity.
Qed.

Lemma summary_passed a s :
  tally fail (results s) = 0 ->
  summary a s
  = ({| results := results s;
        stdout := stdout s
                  ++ [success_banner a (tally pass (results s))
                        (length (results s))]
                  ++ (if 0 <? tally warn (results s)
                      then [warning_note a (tally warn (results s))]
                      else [])
                  ++ [ready_hint a];
        stderr := stderr s; launches := launches s |}, Normal tt).
Proof.
  unfold tally, summary. intros Hf. rewrite Hf. cbn [Nat.eqb].
  unfold bind, console_log, ret. cbn.
  destruct (length (filter (has_status warn) (results s))) as [|w];
    cbn; rewrite <- ?app_assoc; reflexivity.
Qed.

Lemma summary_failed a s :
  tally fail (results s) <> 0 ->
  summary a s
  = ({| results := results s;
        stdout := stdout s
                  ++ [failure_banner a (tally fail (results s));
                      remediation_hint a];
        stderr := stderr s; launches := launches s |}, Exit 1).
Proof.
  unfold tally, summary. intros Hf. apply Nat.eqb_neq in Hf. rewrite Hf.
  unfold bind, console_log, process_exit. cbn.
  rewrite <- app_assoc. reflexivity.
Qed.

(** The exit code of a run, from the results it ends with. *)
Lemma exit_of_run a :
  snd (check_environment a)
  = if tally fail (results (fst (check_environment a))) =? 0
    then 0%Z else 1%Z.
Proof.
  unfold check_environment.
  destruct (main_runs a) as (s & Hmain & _ & _). rewrite Hmain.
  destruct (Nat.eq_dec (tally fail (results s)) 0) as [Hf | Hf].
  - rewrite (summary_passed a s Hf). cbn [fst snd results exit_code].
    rewrite Hf. reflexivity.
  - rewrite (summary_failed a s Hf). cbn [fst snd results exit_code].
    apply Nat.eqb_neq in Hf. rewrite Hf. reflexivity.
Qed.

Lemma results_of_run a :
  map name (results (fst (check_environment a))) = probe_names
  /\ map status (results (fst (check_environment a))) = statuses_of a.
Proof.
  unfold check_environment.
  destruct (main_runs a) as (s & Hmain & Hn & Hs). rewrite Hmain.
  destruct (Nat.eq_dec (tally fail (results s)) 0) as [Hf | Hf].
  - rewrite (summary_passed a s Hf). cbn [fst snd results]. auto.
  - rewrite (summary_failed a s Hf). cbn [fst snd results]. auto.
Qed.

(** ** Parsing the major version *)

Lemma is_digit_range c : is_digit c = true <-> (48 <= c <= 57)%N.
Proof.
  unfold is_digit. rewrite andb_true_iff, !N.leb_le. reflexivity.
Qed.

Lemma digit_not_space c : is_digit c = true -> isWhiteSpace c = false.
Proof.
  intros H. apply is_digit_range in H. unfold isWhiteSpace.
  rewrite (proj2 (N.leb_gt c 13)) by lia.
  rewrite (proj2 (N.leb_gt 8192 c)) by lia.
  rewrite !(proj2 (N.eqb_neq c _)) by lia.
  rewrite andb_false_r. reflexivity.
Qed.

Lemma digit_value_decimal c :
  is_digit c = true -> digit_value 10 c = Some (c - 48)%N.
Proof.
  intros H. unfold digit_value. fold (is_digit c). rewrite H.
  apply is_digit_range in H.
  rewrite (proj2 (N.ltb_lt (c - 48) 10)) by lia. reflexivity.
Qed.

Lemma digit_value_none c :
  is_digit c = false -> digit_value 10 c = None.
Proof.
  intros H. unfold digit_value. fold (is_digit c). rewrite H.
  destruct ((97 <=? c) && (c <=? 122))%N eqn:Hl.
  - apply andb_true_iff in Hl. rewrite !N.leb_le in Hl.
    rewrite (proj2 (N.ltb_ge (c - 87) 10)) by lia. reflexivity.
  - destruct ((65 <=? c) && (c <=? 90))%N eqn:Hu; [|reflexivity].
    apply andb_true_iff in Hu. rewrite !N.leb_le in Hu.
    rewrite (proj2 (N.ltb_ge (c - 55) 10)) by lia. reflexivity.
Qed.

Lemma read_digits_decimal ds :
  forall seen acc,
    forallb is_digit ds = true ->
    seen = true \/ ds <> [] ->
    read_digits 10 ds seen acc
    = Some (fold_left (fun acc c => (acc * 10 + (c - 48))%N) ds acc).
Proof.
  induction ds as [|c ds IH]; intros seen acc Hd Hne.
  - destruct Hne as [-> | Hne]; [reflexivity|congruence].
  - cbn [forallb] in Hd. apply andb_true_iff in Hd. destruct Hd as [Hc Hd].
    cbn [read_digits fold_left]. rewrite (digit_value_decimal _ Hc).
    apply IH; [exact Hd|left; reflexivity].
Qed.

Lemma parseInt_digits ds :
  ds <> [] ->
  forallb is_digit ds = true ->
  parseInt ds = Some (Z.of_N (decimal_value ds)).
Proof.
  intros Hne Hd. destruct ds as [|c ds]; [congruence|].
  pose proof Hd as Hall.
  cbn [forallb] in Hd. apply andb_true_iff in Hd. destruct Hd as [Hc Hd].
  pose proof (proj1 (is_digit_range c) Hc) as Hr.
  unfold parseInt. cbn [trimStart]. rewrite (digit_not_space _ Hc).
  cbn [sign_of skip_sign].
  rewrite !(proj2 (N.eqb_neq c _)) by lia. cbn [orb].
  assert (Hs : strip_prefix (c :: ds) = (10%N, c :: ds)).
  { destruct ds as [|x ds]; [reflexivity|]. cbn [strip_prefix].
    cbn [forallb] in Hd. apply andb_true_iff in Hd. destruct Hd as [Hx _].
    apply is_digit_range in Hx.
    rewrite !(proj2 (N.eqb_neq x _)) by lia.
    rewrite andb_false_r. reflexivity. }
  rewrite Hs, (@read_digits_decimal (c :: ds) false 0%N Hall)
    by (right; discriminate).
  unfold decimal_value. f_equal. lia.
Qed.

Lemma parseInt_no_digit s :
  begins_with_digit (skip_sign (trimStart s)) = false ->
  parseInt s = None.
Proof.
  intros H. unfold parseInt.
  set (z := skip_sign (trimStart s)) in *.
  destruct z as [|c z]; [reflexivity|].
  cbn [begins_with_digit] in H.
  assert (Hs : strip_prefix (c :: z) = (10%N, c :: z)).
  { destruct z as [|x z]; [reflexivity|]. cbn [strip_prefix].
    destruct (N.eqb_spec c 48) as [-> | _]; [discriminate H|reflexivity]. }
  rewrite Hs. cbn [read_digits]. rewrite (digit_value_none _ H).
  reflexivity.
Qed.

(** Cutting at the first dot commutes with what [parseInt] skips: a dot is
    neither white space nor a sign. *)

Lemma trimStart_split_first s :
  trimStart (split_first 46 s) = split_first 46 (trimStart s).
Proof.
  induction s as [|c s IH]; [reflexivity|].
  cbn [split_first trimStart].
  destruct (N.eqb_spec c 46) as [-> | Hc].
  - reflexivity.
  - cbn [trimStart]. destruct (isWhiteSpace c); [exact IH|].
    cbn [split_first]. rewrite (proj2 (N.eqb_neq c 46) Hc). reflexivity.
Qed.

Lemma skip_sign_split_first s :
  skip_sign (split_first 46 s) = split_first 46 (skip_sign s).
Proof.
  destruct s as [|c s]; [reflexivity|].
  cbn [split_first skip_sign].
  destruct (N.eqb_spec c 46) as [-> | Hc].
  - reflexivity.
  - cbn [skip_sign]. destruct ((c =? 43) || (c =? 45))%N; [reflexivity|].
    cbn [split_first]. rewrite (proj2 (N.eqb_neq c 46) Hc). reflexivity.
Qed.

Lemma begins_with_digit_split_first s :
  begins_with_digit s = false ->
  begins_with_digit (split_first 46 s) = false.
Proof.
  destruct s as [|c s]; [reflexivity|].
  cbn [split_first begins_with_digit].
  destruct (c =? 46)%N; [reflexivity|]. intros H; exact H.
Qed.

Lemma major_of_no_digit version :
  begins_with_digit (skip_sign (trimStart (slice1 version))) = false ->
  major_of version = None.
Proof.
  intros H. unfold major_of. apply parseInt_no_digit.
  rewrite trimStart_split_first, skip_sign_split_first.
  apply begins_with_digit_split_first. exact H.
Qed.

Lemma split_first_digits ds rest :
  forallb is_digit ds = true ->
  split_first 46 ds = ds /\ split_first 46 (ds ++ 46%N :: rest) = ds.
Proof.
  induction ds as [|c ds IH]; intros Hd.
  - split; reflexivity.
  - cbn [forallb] in Hd. apply andb_true_iff in Hd. destruct Hd as [Hc Hd].
    apply is_digit_range in Hc. destruct (IH Hd) as [IH1 IH2].
    cbn [split_first app].
    rewrite (proj2 (N.eqb_neq c 46)) by lia. rewrite IH1, IH2.
    split; reflexivity.
Qed.

(** The comparison with 18 survives any rounding of the parsed integer
    that is monotone and leaves 17 and 18 alone, as the rounding to a
    double is. *)
Lemma ge18_after_rounding (round : Z -> Z) :
  (forall x y, (x <= y)%Z -> (round x <= round y)%Z) ->
  round 17%Z = 17%Z -> round 18%Z = 18%Z ->
  forall major, ge18 (option_map round major) = ge18 major.
Proof.
  intros Hmono H17 H18 [n|]; [|reflexivity]. cbn [option_map ge18].
  destruct (Z.leb_spec 18 n) as [Hn | Hn].
  - apply Z.leb_le. rewrite <- H18. apply Hmono. exact Hn.
  - apply Z.leb_gt. assert (H : (round n <= round 17)%Z) by (apply Hmono; lia).
    lia.
Qed.

Lemma read_digits_prefix s :
  forall seen acc,
    seen = true \/ spec_numeric_prefix s <> [] ->
    read_digits 10 s seen acc
    = Some (fold_left (fun acc c => (acc * 10 + (c - 48))%N)
              (spec_numeric_prefix s) acc).
Proof.
  induction s as [|c s IH]; intros seen acc H.
  - destruct H as [-> | H]; [reflexivity|]. exfalso. apply H. reflexivity.
  - cbn [read_digits spec_numeric_prefix] in *.
    destruct (is_digit c) eqn:Hc.
    + rewrite (digit_value_decimal _ Hc). cbn [fold_left].
      apply IH. left. reflexivity.
    + rewrite (digit_value_none _ Hc).
      destruct H as [-> | H]; [reflexivity|]. exfalso. apply H. reflexivity.
Qed.

(** A string that begins with decimal digits and not with the hex marker
    parses to the number its leading digits write. *)
Lemma parseInt_prefix s :
  spec_numeric_prefix s <> [] ->
  hex_marked s = false ->
  parseInt s = Some (Z.of_N (decimal_value (spec_numeric_prefix s))).
Proof.
  intros Hp Hx. destruct s as [|c s]; [exfalso; apply Hp; reflexivity|].
  assert (Hc : is_digit c = true).
  { cbn [spec_numeric_prefix] in Hp. destruct (is_digit c); [reflexivity|].
    exfalso. apply Hp. reflexivity. }
  pose proof (proj1 (is_digit_range c) Hc) as Hr.
  unfold parseInt. cbn [trimStart]. rewrite (digit_not_space _ Hc).
  cbn [sign_of skip_sign].
  rewrite !(proj2 (N.eqb_neq c _)) by lia. cbn [orb].
  assert (Hs : strip_prefix (c :: s) = (10%N, c :: s)).
  { destruct s as [|x s]; [reflexivity|]. cbn [strip_prefix hex_marked] in *.
    rewrite Hx. reflexivity. }
  rewrite Hs, (@read_digits_prefix (c :: s) false 0%N (or_intror Hp)).
  unfold decimal_value. f_equal. lia.
Qed.

(** Past the marker the digits are read in base 16. *)
Lemma parseInt_hex x hs :
  x = 120%N \/ x = 88%N ->
  parseInt (48%N :: x :: hs)
  = option_map Z.of_N (read_digits 16 hs false 0%N).
Proof.
  intros Hx. unfold parseInt. cbn [trimStart].
  change (isWhiteSpace 48) with false. cbn [sign_of skip_sign].
  change ((48 =? 45)%N) with false. change ((48 =? 43)%N) with false.
  cbn [orb strip_prefix]. change ((48 =? 48)%N) with true.
  assert (Hm : ((x =? 120) || (x =? 88))%N = true)
    by (destruct Hx as [-> | ->]; reflexivity).
  rewrite Hm. cbn [andb].
  destruct (read_digits 16 hs false 0%N) as [m|]; [|reflexivity].
  cbn [option_map]. f_equal. lia.
Qed.

(** A version of the shape the runtime reports: one leading character,
    the digits of the major version, then the end or a dot. *)
Lemma major_of_digits c ds rest :
  ds <> [] ->
  forallb is_digit ds = true ->
  major_of (c :: ds) = Some (Z.of_N (decimal_value ds))
  /\ major_of (c :: ds ++ 46%N :: rest) = Some (Z.of_N (decimal_value ds)).
Proof.
  intros Hne Hd. unfold major_of, slice1. cbn [tl].
  destruct (@split_first_digits ds rest Hd) as [-> ->].
  split; apply parseInt_digits; assumption.
Qed.

Lemma tally_zero st rs :
  tally st rs = 0 <-> Forall (fun r => status r <> st) rs.
Proof.
  induction rs as [|r rs IH].
  - split; [constructor|reflexivity].
  - rewrite tally_cons. split.
    + intros H. destruct (Status_eqb (status r) st) eqn:He;
        [discriminate H|].
      constructor; [|apply IH; exact H].
      intros Heq. rewrite Heq in He. destruct st; discriminate He.
    + intros H. inversion H as [|? ? Hr Hrs]; subst.
      destruct (Status_eqb (status r) st) eqn:He.
      * exfalso. apply Hr. destruct (status r), st;
          try discriminate He; reflexivity.
      * apply IH. exact Hrs.
Qed.

(** ** The properties of the specification *)

(** C1: the exit code of the process is 0 if and only if no result of the
    run has the status fail, and it is 1 as soon as one result has. *)
Theorem exit_code_iff_no_failure :
  forall a,
    let run := check_environment a in
    (snd run = 0%Z <-> tally fail (results (fst run)) = 0)
    /\ (snd run = 0%Z
        <-> Forall (fun r => status r <> fail) (results (fst run)))
    /\ (tally fail (results (fst run)) <> 0 -> snd run = 1%Z)
    /\ (Exists (fun r => status r = fail) (results (fst run)) ->
        snd run = 1%Z).
Proof.
  intros a run. subst run.
  pose proof (exit_of_run a) as He.
  set (rs := results (fst (check_environment a))) in *.
  assert (H0 : snd (check_environment a) = 0%Z <-> tally fail rs = 0).
  { rewrite He. destruct (Nat.eqb_spec (tally fail rs) 0) as [Hf | Hf].
    - split; auto.
    - split; [discriminate|contradiction]. }
  assert (H1 : tally fail rs <> 0 -> snd (check_environment a) = 1%Z).
  { intros Hf. rewrite He. apply Nat.eqb_neq in Hf. rewrite Hf.
    reflexivity. }
  split; [exact H0|].
  split; [rewrite H0; apply tally_zero|].
  split; [exact H1|].
  intros Hex. apply H1. intros Hf. apply tally_zero in Hf.
  apply Exists_exists in Hex. destruct Hex as (r & Hin & Hr).
  rewrite Forall_forall in Hf. exact (Hf r Hin Hr).
Qed.

(** C2: for every value of the variable the primary key probe logs one
    result, with the status the specification gives: fail when the
    variable is unset or trims to empty, warn when the trimmed value lacks
    the prefix, warn when it has the prefix and fewer than 50 code units,
    pass otherwise; so unset fails, "short" warns, 50 or more without the
    prefix warns and 50 or more with the prefix passes, the trimmed value
    being the one measured. *)
Theorem primary_key_probe_status :
  forall a s,
    exists r,
      emits (checkAnthropicKey a) s r
      /\ status r = spec_primary_status (process_env a anthropic_var)
      /\ (process_env a anthropic_var = None -> status r = fail)
      /\ (process_env a anthropic_var = Some (lit "short") ->
          status r = warn)
      /\ (forall v,
            process_env a anthropic_var = Some v ->
            50 <= length (trim v) ->
            startsWith (trim v) (lit "sk-ant-") = false ->
            status r = warn)
      /\ (forall v,
            process_env a anthropic_var = Some v ->
            50 <= length (trim v) ->
            startsWith (trim v) (lit "sk-ant-") = true ->
            status r = pass).
Proof.
  intros a s.
  destruct (primary_status a s) as (r & Hlogs & _ & Hst).
  exists r. split; [exact (logs_emits Hlogs)|].
  split; [exact Hst|]. rewrite Hst.
  split; [intros ->; reflexivity|].
  split; [intros ->; vm_compute; reflexivity|].
  split; intros v -> Hlen Hp; cbn [spec_primary_status];
    (destruct (trim v) as [|c t]; [cbn in Hlen; lia|]);
    rewrite Hp; [reflexivity|].
  apply Nat.ltb_ge in Hlen. rewrite Hlen. reflexivity.
Qed.

(** C3: for every value of the variable the secondary key probe logs one
    result: fail when the variable is unset or trims to empty, warn when
    the trimmed value has fewer than 30 code units, pass otherwise, with
    no look at a prefix; so unset fails, a length of 10 warns and a length
    of 40 passes. *)
Theorem secondary_key_probe_status :
  forall a s,
    exists r,
      emits (checkGeminiKey a) s r
      /\ status r = spec_secondary_status (process_env a gemini_var)
      /\ (process_env a gemini_var = None -> status r = fail)
      /\ (forall v,
            process_env a gemini_var = Some v ->
            length (trim v) = 10 -> status r = warn)
      /\ (forall v,
            process_env a gemini_var = Some v ->
            length (trim v) = 40 -> status r = pass).
Proof.
  intros a s.
  destruct (secondary_status a s) as (r & Hlogs & _ & Hst).
  exists r. split; [exact (logs_emits Hlogs)|].
  split; [exact Hst|]. rewrite Hst.
  split; [intros ->; reflexivity|].
  split; intros v -> Hlen; cbn [spec_secondary_status];
    (destruct (trim v) as [|c t]; [discriminate Hlen|]);
    rewrite Hlen; reflexivity.
Qed.

(** C4, as the code has it: the runtime version probe hands to parseInt
    the code units after the leading character and before the first dot,
    and logs pass when the parsed major version is at least 18 and fail
    when it is below 18.  Whenever those code units begin with a decimal
    digit and not with the marker 0x or 0X, the major version is the
    numeric prefix, the number the leading digits write: the probe logs
    pass exactly when that number is at least 18 and fail exactly when it
    is below, whatever follows the digits; past the marker parseInt reads
    the digits in base 16 instead, and the probe logs pass exactly when
    there is such a digit and their number is at least 18.  So a major
    version of 17 fails and 18 and 20 pass. *)
Theorem version_probe_threshold :
  forall a s,
    exists r,
      emits (checkNodeVersion a) s r
      /\ (forall n,
            major_of (process_version a) = Some n ->
            ((18 <= n)%Z -> status r = pass)
            /\ ((n < 18)%Z -> status r = fail))
      /\ (let prefix :=
             spec_numeric_prefix (major_segment (process_version a)) in
          prefix <> [] ->
          hex_marked (major_segment (process_version a)) = false ->
          (status r = pass <-> (18 <= decimal_value prefix)%N)
          /\ (status r = fail <-> (decimal_value prefix < 18)%N)
          /\ ((decimal_value prefix < 2 ^ 53)%N ->
              major_of (process_version a)
              = Some (Z.of_N (decimal_value prefix))))
      /\ (forall x hs,
            x = 120%N \/ x = 88%N ->
            major_segment (process_version a) = 48%N :: x :: hs ->
            (status r = pass
             <-> exists m,
                   read_digits 16 hs false 0%N = Some m /\ (18 <= m)%N))
      /\ (forall c rest,
            process_version a = c :: lit "17" ++ 46%N :: rest ->
            status r = fail)
      /\ (forall c rest,
            process_version a = c :: lit "18" ++ 46%N :: rest ->
            status r = pass)
      /\ (forall c rest,
            process_version a = c :: lit "20" ++ 46%N :: rest ->
            status r = pass).
Proof.
  intros a s.
  destruct (version_status a s) as (r & Hlogs & _ & Hst).
  exists r. split; [exact (logs_emits Hlogs)|].
  split.
  { intros n Hn. rewrite Hst, Hn. cbn [ge18]. split; intros H.
    - apply Z.leb_le in H. rewrite H. reflexivity.
    - apply Z.leb_gt in H. rewrite H. reflexivity. }
  split.
  { intros prefix Hp Hx. subst prefix.
    assert (Hm : major_of (process_version a)
                 = Some (Z.of_N (decimal_value
                     (spec_numeric_prefix
                        (major_segment (process_version a)))))).
    { exact (parseInt_prefix _ Hp Hx). }
    rewrite Hst, Hm. cbn [ge18].
    set (d := decimal_value _).
    destruct (Z.leb_spec 18 (Z.of_N d)) as [Hd | Hd]; cbn [verdict].
    - split; [split; [intros _; lia|reflexivity]|].
      split; [split; [discriminate|lia]|reflexivity].
    - split; [split; [discriminate|lia]|].
      split; [split; [intros _; lia|reflexivity]|reflexivity]. }
  split.
  { intros x hs Hx Hseg.
    assert (Hm : major_of (process_version a)
                 = option_map Z.of_N (read_digits 16 hs false 0%N)).
    { unfold major_of. fold (major_segment (process_version a)).
      rewrite Hseg. exact (parseInt_hex hs Hx). }
    rewrite Hst, Hm.
    destruct (read_digits 16 hs false 0%N) as [m|]; cbn [option_map ge18].
    - destruct (Z.leb_spec 18 (Z.of_N m)) as [Hd | Hd]; cbn [verdict].
      + split; [intros _; exists m; split; [reflexivity|lia]|reflexivity].
      + split; [discriminate|].
        intros (m' & Hm' & Hle). injection Hm' as <-. lia.
    - cbn [verdict]. split; [discriminate|].
      intros (m' & Hm' & _). discriminate Hm'. }
  rewrite Hst.
  repeat split; intros c rest ->;
    match goal with
    | |- context [major_of (c :: lit ?m ++ _)] =>
        rewrite (proj2 (@major_of_digits c (lit m) rest
                          ltac:(discriminate) eq_refl))
    end; reflexivity.
Qed.

(** C4 as the specification words it does not hold: after its leading
    character the version [v0x14.0.0] has the numeric prefix 0 before its
    first dot, below 18, and the probe logs pass, parseInt reading 0x14
    as 20. *)
Lemma hex_version_passes :
  ~ (forall a s r,
       emits (checkNodeVersion a) s r ->
       let prefix :=
         spec_numeric_prefix (major_segment (process_version a)) in
       prefix <> [] ->
       ((18 <= decimal_value prefix)%N -> status r = pass)
       /\ ((decimal_value prefix < 18)%N -> status r = fail)).
Proof.
  intros H.
  destruct (version_status (with_version "v0x14.0.0") start)
    as (r & Hlogs & _ & Hst).
  specialize (H (with_version "v0x14.0.0") start r (logs_emits Hlogs)).
  cbv zeta in H.
  assert (Hp : spec_numeric_prefix
                 (major_segment (process_version (with_version "v0x14.0.0")))
               <> []) by (vm_compute; discriminate).
  destruct (H Hp) as [_ Hfail].
  assert (Hs : status r = fail) by (apply Hfail; vm_compute; reflexivity).
  rewrite Hst in Hs. vm_compute in Hs. discriminate Hs.
Qed.

(** C10, as the code has it: parseInt skips leading white space and one
    sign before it looks for digits.  For every version whose code units
    after the leading character, once that white space and sign are
    skipped, do not begin with a digit, parsing yields no number and the
    probe logs fail; whenever parsing yields no number the probe logs
    fail; and pass is logged only when a parsed major version exists and
    is at least 18. *)
Theorem unparsed_version_fails :
  forall a s,
    exists r,
      emits (checkNodeVersion a) s r
      /\ (begins_with_digit
            (skip_sign (trimStart (slice1 (process_version a)))) = false ->
          major_of (process_version a) = None /\ status r = fail)
      /\ (major_of (process_version a) = None -> status r = fail)
      /\ (status r = pass ->
          exists n,
            major_of (process_version a) = Some n /\ (18 <= n)%Z).
Proof.
  intros a s.
  destruct (version_status a s) as (r & Hlogs & _ & Hst).
  exists r. split; [exact (logs_emits Hlogs)|].
  assert (Hnone : major_of (process_version a) = None -> status r = fail).
  { intros H. rewrite Hst, H. reflexivity. }
  split.
  { intros H. apply major_of_no_digit in H. split; [exact H|auto]. }
  split; [exact Hnone|].
  intros Hp. rewrite Hst in Hp.
  destruct (major_of (process_version a)) as [n|]; [|discriminate Hp].
  exists n. split; [reflexivity|]. cbn [ge18] in Hp.
  destruct (Z.leb_spec 18 n) as [H | H]; [exact H|discriminate Hp].
Qed.

(** C10 as the specification words it does not hold: the version
    [v+20.0.0] does not begin with a digit after its leading character,
    and the probe logs pass. *)
Lemma signed_version_passes :
  ~ (forall a s r,
       begins_with_digit (slice1 (process_version a)) = false ->
       emits (checkNodeVersion a) s r ->
       status r = fail).
Proof.
  intros H.
  destruct (version_status (with_version "v+20.0.0") start)
    as (r & Hlogs & _ & Hst).
  specialize (H (with_version "v+20.0.0") start r eq_refl
                (logs_emits Hlogs)).
  rewrite Hst in H. vm_compute in H. discriminate H.
Qed.

(** C5: each probe logs exactly one result, the directory probe one per
    path, two; whatever the environment, a run ends with exactly seven
    results, in the order runtime version, primary key, secondary key, the
    two directories, browser, network: a probe that fails keeps no later
    probe from logging its result. *)
Theorem seven_results_in_order :
  (forall a s, exists r, emits (checkNodeVersion a) s r)
  /\ (forall a s, exists r, emits (checkAnthropicKey a) s r)
  /\ (forall a s, exists r, emits (checkGeminiKey a) s r)
  /\ (forall a s,
        exists s' r1 r2,
          checkDirectories a s = (s', Normal tt)
          /\ results s' = results s ++ [r1; r2]
          /\ name r1 = lit "Directory ./cloned-pages"
          /\ name r2 = lit "Directory ./screenshots")
  /\ (forall a s, exists r, emits (checkPlaywright a) s r)
  /\ (forall a s, exists r, emits (checkNetwork a) s r)
  /\ (forall a,
        length (results (fst (check_environment a))) = 7
        /\ map name (results (fst (check_environment a))) = probe_names).
Proof.
  split.
  { intros a s. destruct (version_status a s) as (r & H & _).
    exists r. exact (logs_emits H). }
  split.
  { intros a s. destruct (primary_status a s) as (r & H & _).
    exists r. exact (logs_emits H). }
  split.
  { intros a s. destruct (secondary_status a s) as (r & H & _).
    exists r. exact (logs_emits H). }
  split.
  { intros a s.
    destruct (directories_status a s)
      as (s' & r1 & r2 & Hrun & Hres & _ & Hn & _).
    exists s', r1, r2. cbn [map] in Hn. injection Hn as Hn1 Hn2. auto. }
  split.
  { intros a s. destruct (playwright_status a s) as (r & H & _).
    exists r. exact (logs_emits H). }
  split.
  { intros a s. destruct (network_status a s) as (r & H & _).
    exists r. exact (logs_emits H). }
  intros a. destruct (results_of_run a) as [Hn _].
  split; [|exact Hn].
  rewrite <- (length_map name), Hn. reflexivity.
Qed.

(** C6: the summary splits the results by status into three groups that
    cover them.  With no failed result it prints the success banner with
    the counts passed/total, the note with the count of warnings exactly
    when there is a warning, and ends without leaving, so the exit code is
    0; with a failed result it prints the failure banner with the count of
    failures and the hint, and exits with 1.  Results [pass, warn, pass]
    give exit code 0 and the note of 1 warning, [pass, fail, warn] a
    non-zero exit code and the banner 1 CHECK(S) FAILED. *)
Theorem aggregation_report :
  forall a s,
    let rs := results s in
    tally pass rs + tally warn rs + tally fail rs = length rs
    /\ (tally fail rs = 0 ->
        exists s',
          summary a s = (s', Normal tt)
          /\ exit_code (snd (summary a s)) = 0%Z
          /\ stdout s'
             = stdout s
               ++ [success_banner a (tally pass rs) (length rs)]
               ++ (if 0 <? tally warn rs
                   then [warning_note a (tally warn rs)] else [])
               ++ [ready_hint a])
    /\ (tally fail rs <> 0 ->
        exists s',
          summary a s = (s', Exit 1)
          /\ exit_code (snd (summary a s)) = 1%Z
          /\ stdout s'
             = stdout s
               ++ [failure_banner a (tally fail rs); remediation_hint a])
    /\ (map status rs = [pass; warn; pass] ->
        exit_code (snd (summary a s)) = 0%Z
        /\ stdout (fst (summary a s))
           = stdout s
             ++ [chalk a bold_green (party ++ lit " ALL CHECKS PASSED! (2/3)");
                 chalk a yellow (lit "   1 warning(s) - review above");
                 ready_hint a])
    /\ (map status rs = [pass; fail; warn] ->
        exit_code (snd (summary a s)) <> 0%Z
        /\ stdout (fst (summary a s))
           = stdout s
             ++ [chalk a bold_red (icon_fail ++ lit " 1 CHECK(S) FAILED");
                 remediation_hint a]).
Proof.
  intros a s rs. subst rs.
  split; [apply tally_partition|].
  split.
  { intros Hf. rewrite (summary_passed a s Hf).
    eexists. split; [reflexivity|]. split; reflexivity. }
  split.
  { intros Hf. rewrite (summary_failed a s Hf).
    eexists. split; [reflexivity|]. split; reflexivity. }
  split.
  - intros Hst.
    pose proof (fun st =>
      @tally_statuses st (results s)
        [ {| name := []; status := pass; message := [] |};
          {| name := []; status := warn; message := [] |};
          {| name := []; status := pass; message := [] |} ] Hst) as Ht.
    assert (Hlen : length (results s) = 3)
      by (rewrite <- (length_map status), Hst; reflexivity).
    rewrite (summary_passed a s (Ht fail)).
    cbn [fst snd stdout exit_code].
    rewrite (Ht pass), (Ht warn), Hlen. split; reflexivity.
  - intros Hst.
    pose proof (fun st =>
      @tally_statuses st (results s)
        [ {| name := []; status := pass; message := [] |};
          {| name := []; status := fail; message := [] |};
          {| name := []; status := warn; message := [] |} ] Hst) as Ht.
    assert (Hf : tally fail (results s) <> 0)
      by (rewrite (Ht fail); discriminate).
    rewrite (summary_failed a s Hf).
    cbn [fst snd stdout exit_code].
    rewrite (Ht fail). split; [discriminate|reflexivity].
Qed.

Lemma network_error_not_ok launched e :
  network_error launched = Some e -> network_ok launched = false.
Proof.
  unfold network_error, network_ok.
  destruct launched as [b|]; [|reflexivity].
  destruct (newPage b) as [p|]; [|reflexivity].
  destruct (goto p (lit "https://example.com") 10000%N); [|reflexivity].
  destruct (close b); [discriminate|]. intros _. apply andb_false_r.
Qed.

(** C7: whichever awaited call of the network probe rejects, and whatever
    error it rejects with, the probe logs the one fixed result whose
    message is the generic connectivity text, so nothing of the error
    reaches it; every fail result of the probe is that one.  The browser
    probe logs a fail result whose message carries the text of the error
    between its fixed opening and the remediation command. *)
Theorem network_failure_is_generic :
  (forall a s e,
     network_error (chromium_launch a true (launches s)) = Some e ->
     emits (checkNetwork a) s network_failure)
  /\ (forall a s r,
        emits (checkNetwork a) s r -> status r = fail ->
        r = network_failure)
  /\ message network_failure
     = lit "Cannot reach websites. Check your internet connection."
  /\ (forall a s e,
        browser_error (chromium_launch a true (launches s)) = Some e ->
        emits (checkPlaywright a) s
          {| name := lit "Playwright Browser"; status := fail;
             message := lit "Browser failed: " ++ error_message e
                        ++ lit ". Run: npx playwright install chromium" |}).
Proof.
  split.
  { intros a s e He.
    destruct (network_status a s) as (r & Hlogs & _ & Hst & Hfail).
    rewrite (network_error_not_ok _ He) in Hst.
    rewrite <- (Hfail Hst). exact (logs_emits Hlogs). }
  split.
  { intros a s r Hr Hst.
    destruct (network_status a s) as (r' & Hlogs & _ & _ & Hfail).
    rewrite (emits_unique Hr (logs_emits Hlogs)) in *. auto. }
  split; [reflexivity|].
  intros a s e He.
  destruct (playwright_status a s) as (r & Hlogs & Hn & Hst & Hm).
  rewrite He in Hm.
  assert (Hok : browser_ok (chromium_launch a true (launches s)) = false).
  { unfold browser_error, browser_ok in *.
    destruct (chromium_launch a true (launches s)) as [b|]; [|reflexivity].
    destruct (close b); [discriminate He|reflexivity]. }
  rewrite Hok in Hst. cbn [verdict] in Hst.
  destruct r as [n st m]. cbn [name status message] in *. subst n st m.
  exact (logs_emits Hlogs).
Qed.

Lemma same_inputs_statuses a1 a2 :
  same_inputs a1 a2 -> statuses_of a1 = statuses_of a2.
Proof.
  intros [Henv Hver Hdir Hacc Hlaunch]. unfold statuses_of.
  rewrite Hver, !Henv.
  assert (Hd : forall dir, dir_ok a1 dir = dir_ok a2 dir).
  { intros dir. unfold dir_ok.
    rewrite (Hdir dir), (Hacc dir W_OK). reflexivity. }
  assert (Hb : forall n,
             browser_ok (chromium_launch a1 true n)
             = browser_ok (chromium_launch a2 true n)).
  { intros n. specialize (Hlaunch true n). unfold browser_ok, same_browser in *.
    destruct (chromium_launch a1 true n), (chromium_launch a2 true n);
      try contradiction; [apply Hlaunch|reflexivity]. }
  assert (Hn : forall n,
             network_ok (chromium_launch a1 true n)
             = network_ok (chromium_launch a2 true n)).
  { intros n. specialize (Hlaunch true n). unfold network_ok, same_browser in *.
    destruct (chromium_launch a1 true n) as [b1|],
             (chromium_launch a2 true n) as [b2|];
      try contradiction; [|reflexivity].
    destruct Hlaunch as [Hp Hc]. unfold same_page in Hp.
    destruct (newPage b1) as [p1|], (newPage b2) as [p2|];
      try contradiction; [|reflexivity].
    rewrite (Hp _ _), Hc. reflexivity. }
  rewrite !Hd, Hb, Hn. reflexivity.
Qed.

(** C8: two runs whose environments give the same inputs (the same
    variables, the same version, every directory, browser and navigation
    call settling the same way) log the same sequence of statuses and
    leave with the same exit code, even where the errors behind the
    failures, and so the messages, differ. *)
Theorem statuses_deterministic :
  forall a1 a2,
    same_inputs a1 a2 ->
    map status (results (fst (check_environment a1)))
    = map status (results (fst (check_environment a2)))
    /\ snd (check_environment a1) = snd (check_environment a2).
Proof.
  intros a1 a2 Hsame.
  destruct (results_of_run a1) as [_ H1].
  destruct (results_of_run a2) as [_ H2].
  assert (Hst : map status (results (fst (check_environment a1)))
                = map status (results (fst (check_environment a2)))).
  { rewrite H1, H2. apply same_inputs_statuses. exact Hsame. }
  split; [exact Hst|].
  rewrite !exit_of_run, (tally_statuses fail _ _ Hst). reflexivity.
Qed.

(** Two machines without the browser whose launch errors differ: the
    statuses and the exit code agree. *)
Lemma statuses_deterministic_witness :
  map status (results (fst (check_environment (no_browser "ENOENT"))))
  = map status (results (fst (check_environment (no_browser "EACCES"))))
  /\ snd (check_environment (no_browser "ENOENT"))
     = snd (check_environment (no_browser "EACCES")).
Proof.
  apply (statuses_deterministic (a1 := no_browser "ENOENT")
           (a2 := no_browser "EACCES")).
  constructor; intros; cbn; first [reflexivity | exact I].
Defined.

(** The messages of those two runs do differ. *)
Lemma messages_may_differ :
  map message (results (fst (check_environment (no_browser "ENOENT"))))
  <> map message (results (fst (check_environment (no_browser "EACCES")))).
Proof.
  vm_compute. discriminate.
Qed.

(** C9: in the primary key probe the prefix is checked before the length.
    Every value that is not empty once trimmed and does not start with
    sk-ant- gets the warn result with the unusual-format message, short or
    not, "short" among them; the too-short message is logged exactly for
    the values that start with sk-ant- and have fewer than 50 code
    units. *)
Theorem prefix_check_precedes_length :
  forall a s,
    (forall v,
       process_env a anthropic_var = Some v ->
       trim v <> [] ->
       startsWith (trim v) (lit "sk-ant-") = false ->
       emits (checkAnthropicKey a) s
         {| name := lit "Anthropic API Key"; status := warn;
            message :=
              lit "Key format looks unusual (should start with sk-ant-)" |})
    /\ (process_env a anthropic_var = Some (lit "short") ->
        emits (checkAnthropicKey a) s
          {| name := lit "Anthropic API Key"; status := warn;
             message :=
               lit "Key format looks unusual (should start with sk-ant-)" |})
    /\ (forall r,
          emits (checkAnthropicKey a) s r ->
          (message r
           = lit "Key seems too short. Make sure you copied the full key."
           <-> exists v,
                 process_env a anthropic_var = Some v
                 /\ startsWith (trim v) (lit "sk-ant-") = true
                 /\ length (trim v) < 50)).
Proof.
  intros a s.
  assert (Hunusual :
    forall v,
      process_env a anthropic_var = Some v ->
      trim v <> [] ->
      startsWith (trim v) (lit "sk-ant-") = false ->
      emits (checkAnthropicKey a) s
        {| name := lit "Anthropic API Key"; status := warn;
           message :=
             lit "Key format looks unusual (should start with sk-ant-)" |}).
  { intros v Hv Hne Hp. exact (logs_emits (anthropic_unusual a s Hv Hne Hp)). }
  split; [exact Hunusual|].
  split.
  { intros Hv. apply (Hunusual _ Hv); vm_compute; [discriminate|reflexivity]. }
  intros r Hr. split.
  - intros Hm.
    destruct (anthropic_cases a)
      as [Hunset | (v & Hv & Hne & [Hp | (Hp & [Hlen | Hlen])])].
    + rewrite (emits_unique Hr (logs_emits (anthropic_unset a s Hunset)))
        in Hm.
      vm_compute in Hm. discriminate Hm.
    + rewrite (emits_unique Hr (Hunusual v Hv Hne Hp)) in Hm.
      vm_compute in Hm. discriminate Hm.
    + exists v. auto.
    + rewrite (emits_unique Hr (logs_emits (anthropic_pass a s Hv Hp Hlen)))
        in Hm.
      vm_compute in Hm. discriminate Hm.
  - intros (v & Hv & Hp & Hlen).
    rewrite (emits_unique Hr (logs_emits (anthropic_short a s Hv Hp Hlen))).
    reflexivity.
Qed.

(** ** The properties at sample environments *)

Example healthy_run :
  map status (results (fst (check_environment healthy)))
  = [pass; pass; pass; pass; pass; pass; pass]
  /\ snd (check_environment healthy) = 0%Z.
Proof. vm_compute. split; reflexivity. Qed.

Example run_without_browser :
  map status (results (fst (check_environment (no_browser "ENOENT"))))
  = [pass; pass; pass; pass; pass; fail; fail]
  /\ snd (check_environment (no_browser "ENOENT")) = 1%Z.
Proof. vm_compute. split; reflexivity. Qed.

Example run_with_padded_keys :
  map status
    (results (fst (check_environment
       (with_keys (Some (lit "  sk-ant-" ++ repeat1 32 50))
                  (Some (repeat1 32 40))))))
  = [pass; warn; fail; pass; pass; pass; pass].
Proof. vm_compute. reflexivity. Qed.

Lemma exit_code_iff_no_failure_witness :
  snd (check_environment (no_browser "ENOENT")) = 1%Z
  /\ snd (check_environment healthy) = 0%Z.
Proof.
  destruct (exit_code_iff_no_failure (no_browser "ENOENT"))
    as (_ & _ & Hfail & _).
  destruct (exit_code_iff_no_failure healthy) as ([_ Hpass] & _).
  split.
  - apply Hfail. vm_compute. discriminate.
  - apply Hpass. vm_compute. reflexivity.
Defined.

Lemma primary_key_probe_status_witness :
  (exists r,
     emits (checkAnthropicKey (with_keys (Some (lit "short")) None)) start r
     /\ status r = warn)
  /\ (exists r, emits (checkAnthropicKey healthy) start r /\ status r = pass).
Proof.
  split.
  - destruct (primary_key_probe_status
                (with_keys (Some (lit "short")) None) start)
      as (r & He & _ & _ & Hshort & _).
    exists r. split; [exact He|]. apply Hshort. reflexivity.
  - destruct (primary_key_probe_status healthy start)
      as (r & He & _ & _ & _ & _ & Hpass).
    exists r. split; [exact He|].
    apply (Hpass (lit "sk-ant-" ++ repeat1 97 50)).
    + reflexivity.
    + vm_compute. lia.
    + vm_compute. reflexivity.
Defined.

Lemma secondary_key_probe_status_witness :
  (exists r,
     emits (checkGeminiKey (with_keys None (Some (repeat1 98 10)))) start r
     /\ status r = warn)
  /\ (exists r, emits (checkGeminiKey healthy) start r /\ status r = pass).
Proof.
  split.
  - destruct (secondary_key_probe_status
                (with_keys None (Some (repeat1 98 10))) start)
      as (r & He & _ & _ & Hshort & _).
    exists r. split; [exact He|].
    apply (Hshort (repeat1 98 10)); reflexivity.
  - destruct (secondary_key_probe_status healthy start)
      as (r & He & _ & _ & _ & Hpass).
    exists r. split; [exact He|].
    apply (Hpass (repeat1 98 40)); reflexivity.
Defined.

Lemma version_probe_threshold_witness :
  (exists r,
     emits (checkNodeVersion (with_version "v17.9.1")) start r
     /\ status r = fail)
  /\ (exists r,
        emits (checkNodeVersion (with_version "v18rc1.0")) start r
        /\ status r = pass).
Proof.
  split.
  - destruct (version_probe_threshold (with_version "v17.9.1") start)
      as (r & He & _ & _ & _ & H17 & _).
    exists r. split; [exact He|].
    apply (H17 118%N (lit "9.1")). reflexivity.
  - destruct (version_probe_threshold (with_version "v18rc1.0") start)
      as (r & He & _ & Hprefix & _).
    exists r. split; [exact He|].
    cbv zeta in Hprefix.
    apply Hprefix.
    + vm_compute. discriminate.
    + reflexivity.
    + vm_compute. discriminate.
Defined.

Lemma aggregation_report_witness :
  exit_code (snd (summary healthy (state_with [pass; warn; pass]))) = 0%Z
  /\ exit_code (snd (summary healthy (state_with [pass; fail; warn]))) <> 0%Z.
Proof.
  destruct (aggregation_report healthy (state_with [pass; warn; pass]))
    as (_ & _ & _ & Hok & _).
  destruct (aggregation_report healthy (state_with [pass; fail; warn]))
    as (_ & _ & _ & _ & Hko).
  split.
  - apply Hok. reflexivity.
  - apply Hko. reflexivity.
Defined.

Lemma network_failure_is_generic_witness :
  emits (checkNetwork (no_browser "ENOENT")) start network_failure
  /\ emits (checkPlaywright (no_browser "ENOENT")) start
       {| name := lit "Playwright Browser"; status := fail;
          message :=
            lit "Browser failed: ENOENT. Run: npx playwright install chromium" |}.
Proof.
  destruct network_failure_is_generic as (Hnet & _ & _ & Hbrowser).
  split.
  - apply (Hnet (no_browser "ENOENT") start
             {| error_message := lit "ENOENT" |}).
    reflexivity.
  - apply (Hbrowser (no_browser "ENOENT") start
             {| error_message := lit "ENOENT" |}).
    reflexivity.
Defined.

Lemma prefix_check_precedes_length_witness :
  emits (checkAnthropicKey (with_keys (Some (lit "short")) None)) start
    {| name := lit "Anthropic API Key"; status := warn;
       message :=
         lit "Key format looks unusual (should start with sk-ant-)" |}.
Proof.
  destruct (prefix_check_precedes_length
              (with_keys (Some (lit "short")) None) start)
    as (_ & Hshort & _).
  apply Hshort. reflexivity.
Defined.

Lemma unparsed_version_fails_witness :
  exists r,
    emits (checkNodeVersion (with_version "vnext")) start r
    /\ status r = fail.
Proof.
  destruct (unparsed_version_fails (with_version "vnext") start)
    as (r & He & Hfail & _).
  exists r. split; [exact He|]. apply Hfail. reflexivity.
Defined.

(** ** The whole state of the process *)

Lemma log_after a r s : log a r s = (after a r 0 s, Normal tt).
Proof.
  unfold log, after, render, bind, results_push, console_log. cbn.
  destruct (status r); reflexivity.
Qed.

Lemma after_emits a c r k s :
  c s = (after a r k s, Normal tt) -> emits c s r.
Proof.
  intros H. exists (after a r k s). split; [exact H|reflexivity].
Qed.

Lemma version_after a s :
  exists r, checkNodeVersion a s = (after a r 0 s, Normal tt).
Proof.
  unfold checkNodeVersion.
  destruct (ge18 (major_of (process_version a)));
    eexists; apply log_after.
Qed.

Lemma anthropic_after a s :
  exists r,
    checkAnthropicKey a s = (after a r 0 s, Normal tt)
    /\ In r anthropic_results.
Proof.
  unfold checkAnthropicKey, anthropic_results.
  destruct (not_key (env_trimmed a "ANTHROPIC_API_KEY"));
    [|destruct (negb (key_startsWith (env_trimmed a "ANTHROPIC_API_KEY")
                        (lit "sk-ant-")));
      [|destruct (key_length (env_trimmed a "ANTHROPIC_API_KEY") <? 50)]];
    eexists; (split; [apply log_after|]); cbn [In]; auto.
Qed.

Lemma gemini_after a s :
  exists r,
    checkGeminiKey a s = (after a r 0 s, Normal tt)
    /\ In r gemini_results.
Proof.
  unfold checkGeminiKey, gemini_results.
  destruct (not_key (env_trimmed a "GEMINI_API_KEY"));
    [|destruct (key_length (env_trimmed a "GEMINI_API_KEY") <? 30)];
    eexists; (split; [apply log_after|]); cbn [In]; auto.
Qed.

Lemma directory_after a s dir :
  exists r, checkDirectories_body a dir s = (after a r 0 s, Normal tt).
Proof.
  unfold checkDirectories_body, try_catch, bind, await.
  destruct (fs_ensureDir a dir) as [[]|e1];
    [destruct (fs_access a dir W_OK) as [[]|e2]|];
    eexists; rewrite log_after; reflexivity.
Qed.

Lemma directories_after a s :
  exists r1 r2,
    checkDirectories a s = (after a r2 0 (after a r1 0 s), Normal tt).
Proof.
  unfold checkDirectories, dirs. cbn [for_of].
  destruct (directory_after a s (lit "./cloned-pages")) as (r1 & H1).
  destruct (directory_after a (after a r1 0 s) (lit "./screenshots"))
    as (r2 & H2).
  exists r1, r2.
  rewrite (bind_normal _ _ _ H1), (bind_normal _ _ _ H2). reflexivity.
Qed.

Lemma playwright_after a s :
  exists r, checkPlaywright a s = (after a r 1 s, Normal tt).
Proof.
  unfold checkPlaywright, try_catch, bind, launch, await.
  destruct (chromium_launch a true (launches s)) as [b|e];
    [destruct (close b) as [[]|e]|];
    eexists; rewrite log_after; reflexivity.
Qed.

Lemma network_after a s :
  exists r, checkNetwork a s = (after a r 1 s, Normal tt).
Proof.
  unfold checkNetwork, try_catch, bind, launch, await.
  destruct (chromium_launch a true (launches s)) as [b|e];
    [destruct (newPage b) as [p|e];
     [destruct (goto p (lit "https://example.com") 10000%N) as [[]|e];
      [destruct (close b) as [[]|e]|]|]|];
    eexists; rewrite log_after; reflexivity.
Qed.

(** The state in which [main] reaches its summary. *)
Lemma main_state a :
  exists rs,
    main a start
    = summary a
        {| results := rs;
           stdout := [chalk a bold_cyan banner] ++ map (render a) rs
                     ++ [separator];
           stderr := [];
           launches := 2 |}
    /\ length rs = 7.
Proof.
  unfold main. rewrite bind_console_log.
  set (s0 := fst (console_log (chalk a bold_cyan banner) start)).
  destruct (version_after a s0) as (r1 & H1).
  rewrite (bind_normal _ _ _ H1).
  destruct (anthropic_after a (after a r1 0 s0)) as (r2 & H2 & _).
  rewrite (bind_normal _ _ _ H2).
  destruct (gemini_after a (after a r2 0 (after a r1 0 s0))) as (r3 & H3 & _).
  rewrite (bind_normal _ _ _ H3).
  match goal with |- context [bind (checkDirectories a) _ ?s] =>
    destruct (directories_after a s) as (r4 & r5 & H4) end.
  rewrite (bind_normal _ _ _ H4).
  match goal with |- context [bind (checkPlaywright a) _ ?s] =>
    destruct (playwright_after a s) as (r6 & H6) end.
  rewrite (bind_normal _ _ _ H6).
  match goal with |- context [bind (checkNetwork a) _ ?s] =>
    destruct (network_after a s) as (r7 & H7) end.
  rewrite (bind_normal _ _ _ H7).
  rewrite bind_console_log.
  exists [r1; r2; r3; r4; r5; r6; r7]. split; reflexivity.
Qed.

Lemma summary_run a s :
  exists c,
    summary a s
    = ({| results := results s;
          stdout := stdout s ++ summary_lines a (results s);
          stderr := stderr s; launches := launches s |}, c)
    /\ (c = Normal tt \/ c = Exit 1)
    /\ exit_code c = if tally fail (results s) =? 0 then 0%Z else 1%Z.
Proof.
  unfold summary_lines.
  destruct (Nat.eq_dec (tally fail (results s)) 0) as [Hf | Hf].
  - rewrite (summary_passed a s Hf), Hf. cbn [Nat.eqb].
    exists (Normal tt). auto.
  - rewrite (summary_failed a s Hf).
    apply Nat.eqb_neq in Hf. rewrite Hf.
    exists (Exit 1). auto.
Qed.

(** ** Further properties of the script *)

(** X1: what a run prints is the banner, then one line for each result it
    ends with, in the order of the results and each made of the icon of
    the status, the coloured name and the message, then the rule, then the
    lines of the summary. *)
Theorem run_transcript :
  forall a,
    let run := fst (check_environment a) in
    stdout run
    = [chalk a bold_cyan banner]
      ++ map (render a) (results run)
      ++ [separator]
      ++ summary_lines a (results run).
Proof.
  intros a run. subst run. unfold check_environment.
  destruct (main_state a) as (rs & Hmain & _). rewrite Hmain.
  match goal with |- context [summary a ?s] =>
    destruct (summary_run a s) as (c & Hs & [-> | ->] & _) end;
    rewrite Hs; cbn [fst results stdout];
    rewrite <- !app_assoc; reflexivity.
Qed.

(** X2: no rejection escapes [main]: it ends normally or through
    [process.exit], [console.error] is never reached, and the exit code is
    0 or 1. *)
Theorem no_uncaught_rejection :
  forall a,
    (forall e, snd (main a start) <> Throw e)
    /\ stderr (fst (check_environment a)) = []
    /\ (snd (check_environment a) = 0%Z \/ snd (check_environment a) = 1%Z).
Proof.
  intros a. unfold check_environment.
  destruct (main_state a) as (rs & Hmain & _). rewrite Hmain.
  match goal with |- context [summary a ?s] =>
    destruct (summary_run a s) as (c & Hs & [-> | ->] & _) end;
    rewrite Hs; cbn [fst snd stderr exit_code];
    (split; [intros e; discriminate|]); auto.
Qed.

(** X3: the browser probe and the network probe each launch the browser
    once, whether the launch or a later call fails or not: a run launches
    it exactly twice. *)
Theorem two_browser_launches :
  (forall a s, launches (fst (checkPlaywright a s)) = S (launches s))
  /\ (forall a s, launches (fst (checkNetwork a s)) = S (launches s))
  /\ (forall a, launches (fst (check_environment a)) = 2).
Proof.
  split.
  { intros a s. destruct (playwright_after a s) as (r & ->). reflexivity. }
  split.
  { intros a s. destruct (network_after a s) as (r & ->). reflexivity. }
  intros a. unfold check_environment.
  destruct (main_state a) as (rs & Hmain & _). rewrite Hmain.
  match goal with |- context [summary a ?s] =>
    destruct (summary_run a s) as (c & Hs & [-> | ->] & _) end;
    rewrite Hs; reflexivity.
Qed.

Lemma verdict_not_fail b : verdict b <> fail <-> b = true.
Proof.
  destruct b; cbn; split; intros H; try reflexivity; try discriminate.
  exfalso. apply H. reflexivity.
Qed.

Lemma primary_not_fail value :
  spec_primary_status value <> fail <-> key_present value = true.
Proof.
  unfold key_present. destruct value as [v|]; cbn.
  - destruct (trim v) as [|c t] eqn:Ht; cbn.
    + split; [intros H; exfalso; apply H; reflexivity|discriminate].
    + split; [reflexivity|]. intros _.
      repeat match goal with
             | |- context [if ?b then _ else _] => destruct b
             end; discriminate.
  - split; [intros H; exfalso; apply H; reflexivity|discriminate].
Qed.

Lemma secondary_not_fail value :
  spec_secondary_status value <> fail <-> key_present value = true.
Proof.
  unfold key_present. destruct value as [v|]; cbn.
  - destruct (trim v) as [|c t] eqn:Ht; cbn.
    + split; [intros H; exfalso; apply H; reflexivity|discriminate].
    + split; [reflexivity|]. intros _.
      repeat match goal with
             | |- context [if ?b then _ else _] => destruct b
             end; discriminate.
  - split; [intros H; exfalso; apply H; reflexivity|discriminate].
Qed.

Lemma tally_zero_statuses st rs :
  tally st rs = 0 <-> Forall (fun x => x <> st) (map status rs).
Proof.
  rewrite tally_zero, Forall_map. reflexivity.
Qed.

(** X4: a run exits with 0 exactly when the major version is at least 18,
    both keys are set to something that is not empty once trimmed, both
    directories can be created and written, and the browser and the
    navigation work; the format and the length of the keys only warn and
    never change the exit code. *)
Theorem exit_zero_conditions :
  forall a,
    snd (check_environment a) = 0%Z
    <-> ge18 (major_of (process_version a)) = true
        /\ key_present (process_env a anthropic_var) = true
        /\ key_present (process_env a gemini_var) = true
        /\ dir_ok a (lit "./cloned-pages") = true
        /\ dir_ok a (lit "./screenshots") = true
        /\ browser_ok (chromium_launch a true 0) = true
        /\ network_ok (chromium_launch a true 1) = true.
Proof.
  intros a. rewrite exit_of_run.
  destruct (results_of_run a) as [_ Hst].
  assert (H0 : tally fail (results (fst (check_environment a))) = 0
               <-> Forall (fun x => x <> fail) (statuses_of a)).
  { rewrite tally_zero_statuses, Hst. reflexivity. }
  destruct (Nat.eqb_spec (tally fail (results (fst (check_environment a)))) 0)
    as [Hf | Hf].
  - split; [intros _|reflexivity].
    apply H0 in Hf. unfold statuses_of in Hf.
    repeat match goal with
           | H : Forall _ (_ :: _) |- _ =>
               let Hx := fresh "Hx" in
               let Hr := fresh "Hr" in
               inversion H as [|? ? Hx Hr]; subst; clear H
           end.
    rewrite verdict_not_fail in *.
    rewrite primary_not_fail in *. rewrite secondary_not_fail in *.
    repeat split; assumption.
  - split; [discriminate|].
    intros (H1 & H2 & H3 & H4 & H5 & H6 & H7). exfalso. apply Hf, H0.
    unfold statuses_of.
    repeat constructor;
      first [apply verdict_not_fail | apply primary_not_fail
            | apply secondary_not_fail]; assumption.
Qed.

(** X5: whatever the variables hold, each key probe logs one of the fixed
    results of the source and prints the line of that result: nothing of
    the value of a key reaches the results or the console. *)
Theorem key_probes_never_show_the_key :
  forall a s,
    (exists r,
       In r anthropic_results
       /\ results (fst (checkAnthropicKey a s)) = results s ++ [r]
       /\ stdout (fst (checkAnthropicKey a s)) = stdout s ++ [render a r])
    /\ (exists r,
          In r gemini_results
          /\ results (fst (checkGeminiKey a s)) = results s ++ [r]
          /\ stdout (fst (checkGeminiKey a s)) = stdout s ++ [render a r]).
Proof.
  intros a s. split.
  - destruct (anthropic_after a s) as (r & -> & Hin).
    exists r. split; [exact Hin|]. split; reflexivity.
  - destruct (gemini_after a s) as (r & -> & Hin).
    exists r. split; [exact Hin|]. split; reflexivity.
Qed.

(** *** White space around a key *)

Lemma trimStart_app_space pre s :
  forallb isWhiteSpace pre = true -> trimStart (pre ++ s) = trimStart s.
Proof.
  induction pre as [|c pre IH]; intros H; [reflexivity|].
  cbn [forallb] in H. apply andb_true_iff in H. destruct H as [Hc H].
  cbn [app trimStart]. rewrite Hc. exact (IH H).
Qed.

Lemma trimStart_app s t :
  trimStart (s ++ t)
  = match trimStart s with
    | [] => trimStart t
    | c :: r => (c :: r) ++ t
    end.
Proof.
  induction s as [|c s IH]; [cbn; destruct (trimStart t); reflexivity|].
  cbn [app trimStart]. destruct (isWhiteSpace c); [exact IH|reflexivity].
Qed.

Lemma forallb_rev {A} (f : A -> bool) l :
  forallb f l = true -> forallb f (rev l) = true.
Proof.
  rewrite !forallb_forall. intros H x Hx. apply H, in_rev, Hx.
Qed.

Lemma trimEnd_app_space s post :
  forallb isWhiteSpace post = true -> trimEnd (s ++ post) = trimEnd s.
Proof.
  intros H. unfold trimEnd. rewrite rev_app_distr.
  rewrite (@trimStart_app_space (rev post) (rev s)
             (@forallb_rev _ isWhiteSpace post H)).
  reflexivity.
Qed.

Lemma trim_padded pre v post :
  forallb isWhiteSpace pre = true ->
  forallb isWhiteSpace post = true ->
  trim (pre ++ v ++ post) = trim v.
Proof.
  intros Hpre Hpost. unfold trim.
  rewrite (@trimStart_app_space pre (v ++ post) Hpre), trimStart_app.
  destruct (trimStart v) as [|c r].
  - rewrite <- (app_nil_r post), (@trimStart_app_space post [] Hpost).
    reflexivity.
  - apply trimEnd_app_space. exact Hpost.
Qed.

Lemma trim_space v : forallb isWhiteSpace v = true -> trim v = [].
Proof.
  intros H. unfold trim.
  rewrite <- (app_nil_r v), (@trimStart_app_space v [] H). reflexivity.
Qed.

Lemma log_emits_inv a r0 s r : emits (log a r0) s r -> r = r0.
Proof.
  intros H. symmetry.
  exact (emits_unique (@after_emits a _ r0 0 s (log_after a r0 s)) H).
Qed.

(** The result of a key probe is decided by the trimmed value alone. *)
Lemma anthropic_by_trim a a' s r :
  option_map trim (process_env a anthropic_var)
  = option_map trim (process_env a' anthropic_var) ->
  emits (checkAnthropicKey a) s r -> emits (checkAnthropicKey a') s r.
Proof.
  unfold checkAnthropicKey, env_trimmed. fold anthropic_var. intros ->.
  repeat match goal with
         | |- context [if ?b then _ else _] => destruct b
         end;
    intros H; apply log_emits_inv in H; subst r;
    exact (@after_emits a' _ _ 0 s (log_after a' _ s)).
Qed.

Lemma gemini_by_trim a a' s r :
  option_map trim (process_env a gemini_var)
  = option_map trim (process_env a' gemini_var) ->
  emits (checkGeminiKey a) s r -> emits (checkGeminiKey a') s r.
Proof.
  unfold checkGeminiKey, env_trimmed. fold gemini_var. intros ->.
  repeat match goal with
         | |- context [if ?b then _ else _] => destruct b
         end;
    intros H; apply log_emits_inv in H; subst r;
    exact (@after_emits a' _ _ 0 s (log_after a' _ s)).
Qed.

(** X6: a key that holds nothing but white space is reported like a key
    that is not set: each key probe logs its fail result with the Not set
    message. *)
Theorem blank_key_is_not_set :
  forall a s v,
    forallb isWhiteSpace v = true ->
    (process_env a anthropic_var = Some v ->
     emits (checkAnthropicKey a) s
       {| name := lit "Anthropic API Key"; status := fail;
          message :=
            lit "Not set. Run: export ANTHROPIC_API_KEY=your_key_here" |})
    /\ (process_env a gemini_var = Some v ->
        emits (checkGeminiKey a) s
          {| name := lit "Gemini API Key"; status := fail;
             message :=
               lit "Not set. Run: export GEMINI_API_KEY=your_key_here" |}).
Proof.
  intros a s v Hv. split; intros He.
  - apply logs_emits with (k := 0). apply anthropic_unset.
    rewrite He. cbn [option_map]. rewrite (@trim_space v Hv). reflexivity.
  - apply logs_emits with (k := 0). apply gemini_unset.
    rewrite He. cbn [option_map]. rewrite (@trim_space v Hv). reflexivity.
Qed.

Lemma blank_key_is_not_set_witness :
  emits (checkAnthropicKey read_only) start
    {| name := lit "Anthropic API Key"; status := fail;
       message :=
         lit "Not set. Run: export ANTHROPIC_API_KEY=your_key_here" |}.
Proof.
  exact (proj1 (@blank_key_is_not_set read_only start (lit "  ") eq_refl)
           eq_refl).
Defined.

(** X7: white space before and after the value of a key changes
    nothing: each key probe logs for the padded value the result it logs
    for the value itself. *)
Theorem key_padding_is_ignored :
  forall a a' s r pre v post,
    forallb isWhiteSpace pre = true ->
    forallb isWhiteSpace post = true ->
    (process_env a anthropic_var = Some v ->
     process_env a' anthropic_var = Some (pre ++ v ++ post) ->
     emits (checkAnthropicKey a) s r ->
     emits (checkAnthropicKey a') s r)
    /\ (process_env a gemini_var = Some v ->
        process_env a' gemini_var = Some (pre ++ v ++ post) ->
        emits (checkGeminiKey a) s r ->
        emits (checkGeminiKey a') s r).
Proof.
  intros a a' s r pre v post Hpre Hpost. split; intros Hv Hv'.
  - apply anthropic_by_trim. rewrite Hv, Hv'. cbn [option_map].
    rewrite (@trim_padded pre v post Hpre Hpost). reflexivity.
  - apply gemini_by_trim. rewrite Hv, Hv'. cbn [option_map].
    rewrite (@trim_padded pre v post Hpre Hpost). reflexivity.
Qed.

Lemma key_padding_is_ignored_witness :
  emits (checkAnthropicKey
           (with_keys (Some (lit " " ++ (lit "sk-ant-" ++ repeat1 97 50)
                             ++ lit "  ")) None)) start
    {| name := lit "Anthropic API Key"; status := pass;
       message := lit "Set and format looks correct" |}.
Proof.
  destruct (@key_padding_is_ignored healthy
              (with_keys (Some (lit " " ++ (lit "sk-ant-" ++ repeat1 97 50)
                                ++ lit "  ")) None)
              start
              {| name := lit "Anthropic API Key"; status := pass;
                 message := lit "Set and format looks correct" |}
              (lit " ") (lit "sk-ant-" ++ repeat1 97 50) (lit "  ")
              eq_refl eq_refl) as [H _].
  apply H.
  - reflexivity.
  - reflexivity.
  - eexists. split; [vm_compute; reflexivity|reflexivity].
Defined.

Lemma settled_unit (p : Promise unit) :
  settled p = true <-> p = Fulfilled tt.
Proof.
  destruct p as [[]|e]; cbn; split; intros H;
    try reflexivity; discriminate H.
Qed.

Lemma verdict_pass b : verdict b = pass <-> b = true.
Proof.
  destruct b; cbn; split; intros H; try reflexivity; discriminate H.
Qed.

Lemma verdict_not_warn b : verdict b <> warn.
Proof. destruct b; discriminate. Qed.

Lemma dir_ok_calls a dir :
  dir_ok a dir = true
  <-> fs_ensureDir a dir = Fulfilled tt
      /\ fs_access a dir W_OK = Fulfilled tt.
Proof.
  unfold dir_ok. rewrite andb_true_iff, !settled_unit. reflexivity.
Qed.

(** X8: the directory probe looks at each of the two directories on its
    own: the result of a directory is pass exactly when ensureDir and the
    write-access check both fulfil for that directory, fail with the one
    fixed message otherwise, never warn; the failure of the first
    directory does not keep the second from being checked. *)
Theorem directories_checked_independently :
  forall a s,
    exists s' r1 r2,
      checkDirectories a s = (s', Normal tt)
      /\ results s' = results s ++ [r1; r2]
      /\ (status r1 = pass
          <-> fs_ensureDir a (lit "./cloned-pages") = Fulfilled tt
              /\ fs_access a (lit "./cloned-pages") W_OK = Fulfilled tt)
      /\ (status r2 = pass
          <-> fs_ensureDir a (lit "./screenshots") = Fulfilled tt
              /\ fs_access a (lit "./screenshots") W_OK = Fulfilled tt)
      /\ (status r1 <> pass ->
          status r1 = fail
          /\ message r1 = lit "Cannot create or write to directory")
      /\ (status r2 <> pass ->
          status r2 = fail
          /\ message r2 = lit "Cannot create or write to directory").
Proof.
  intros a s.
  destruct (directory_status a s (lit "./cloned-pages"))
    as (r1 & (s1 & Hrun1 & Hres1 & _) & _ & Hs1 & Hm1).
  destruct (directory_status a s1 (lit "./screenshots"))
    as (r2 & (s2 & Hrun2 & Hres2 & _) & _ & Hs2 & Hm2).
  exists s2, r1, r2.
  unfold checkDirectories, dirs. cbn [for_of].
  rewrite (bind_normal _ _ _ Hrun1), (bind_normal _ _ _ Hrun2).
  split; [reflexivity|].
  split; [rewrite Hres2, Hres1, <- app_assoc; reflexivity|].
  split; [rewrite Hs1, verdict_pass; apply dir_ok_calls|].
  split; [rewrite Hs2, verdict_pass; apply dir_ok_calls|].
  split.
  - intros Hn. assert (Hf : status r1 = fail).
    { rewrite Hs1 in *. destruct (dir_ok a (lit "./cloned-pages"));
        [exfalso; apply Hn; reflexivity|reflexivity]. }
    split; [exact Hf|exact (Hm1 Hf)].
  - intros Hn. assert (Hf : status r2 = fail).
    { rewrite Hs2 in *. destruct (dir_ok a (lit "./screenshots"));
        [exfalso; apply Hn; reflexivity|reflexivity]. }
    split; [exact Hf|exact (Hm2 Hf)].
Qed.

Lemma tally_as_count st rs :
  tally st rs
  = length (filter (fun x => Status_eqb x st) (map status rs)).
Proof.
  induction rs as [|r rs IH]; [reflexivity|].
  rewrite tally_cons, IH. cbn [map filter].
  destruct (Status_eqb (status r) st); reflexivity.
Qed.

Lemma count_permutation st (l l' : list Status) :
  Permutation l l' ->
  length (filter (fun x => Status_eqb x st) l)
  = length (filter (fun x => Status_eqb x st) l').
Proof.
  induction 1 as [|x l l' _ IH|x y l|l l' l'' _ IH1 _ IH2].
  - reflexivity.
  - cbn [filter]. destruct (Status_eqb x st); cbn [length]; congruence.
  - cbn [filter].
    destruct (Status_eqb x st), (Status_eqb y st); reflexivity.
  - congruence.
Qed.

(** X9: the summary does not depend on the order of the results: two
    results arrays whose statuses are a permutation of each other get the
    same summary lines and the same way out. *)
Theorem summary_ignores_order :
  forall a s s',
    Permutation (map status (results s)) (map status (results s')) ->
    snd (summary a s) = snd (summary a s')
    /\ exists lines,
         stdout (fst (summary a s)) = stdout s ++ lines
         /\ stdout (fst (summary a s')) = stdout s' ++ lines.
Proof.
  intros a s s' Hperm.
  assert (Ht : forall st, tally st (results s) = tally st (results s')).
  { intros st. rewrite !tally_as_count.
    apply count_permutation. exact Hperm. }
  assert (Hlen : length (results s) = length (results s')).
  { rewrite <- (length_map status (results s)),
            <- (length_map status (results s')).
    apply Permutation_length. exact Hperm. }
  destruct (Nat.eq_dec (tally fail (results s)) 0) as [Hf | Hf].
  - assert (Hf' : tally fail (results s') = 0) by (rewrite <- Ht; exact Hf).
    rewrite (summary_passed a s Hf), (summary_passed a s' Hf').
    cbn [fst snd stdout]. split; [reflexivity|].
    eexists. split; [reflexivity|]. rewrite !Ht, Hlen. reflexivity.
  - assert (Hf' : tally fail (results s') <> 0) by (rewrite <- Ht; exact Hf).
    rewrite (summary_failed a s Hf), (summary_failed a s' Hf').
    cbn [fst snd stdout]. split; [reflexivity|].
    eexists. split; [reflexivity|]. rewrite !Ht. reflexivity.
Qed.

Lemma summary_ignores_order_witness :
  snd (summary healthy (state_with [pass; fail; warn]))
  = snd (summary healthy (state_with [warn; pass; fail]))
  /\ exists lines,
       stdout (fst (summary healthy (state_with [pass; fail; warn])))
       = stdout (state_with [pass; fail; warn]) ++ lines
       /\ stdout (fst (summary healthy (state_with [warn; pass; fail])))
          = stdout (state_with [warn; pass; fail]) ++ lines.
Proof.
  apply (@summary_ignores_order healthy (state_with [pass; fail; warn])
           (state_with [warn; pass; fail])).
  cbn. apply perm_trans with (l' := [pass; warn; fail]).
  - apply perm_skip. apply perm_swap.
  - apply perm_swap.
Defined.

Lemma split_first_segment seg rest :
  forallb (fun x => negb (x =? 46)%N) seg = true ->
  split_first 46 seg = seg /\ split_first 46 (seg ++ 46%N :: rest) = seg.
Proof.
  induction seg as [|c seg IH]; intros H.
  - split; reflexivity.
  - cbn [forallb] in H. apply andb_true_iff in H. destruct H as [Hc H].
    apply negb_true_iff in Hc. destruct (IH H) as [IH1 IH2].
    cbn [split_first app]. rewrite Hc, IH1, IH2. split; reflexivity.
Qed.

(** X10: the version probe reads nothing but the code units between the
    leading character and the first dot: the leading character is not
    looked at, and what follows the first dot (or its absence) changes
    neither the parsed major version nor the status. *)
Theorem version_probe_reads_major_segment :
  forall a a' s r r' c c' seg rest rest',
    forallb (fun x => negb (x =? 46)%N) seg = true ->
    process_version a = c :: seg ++ 46%N :: rest ->
    process_version a' = c' :: seg ++ 46%N :: rest'
    \/ process_version a' = c' :: seg ->
    emits (checkNodeVersion a) s r ->
    emits (checkNodeVersion a') s r' ->
    major_of (process_version a) = parseInt seg
    /\ major_of (process_version a') = parseInt seg
    /\ status r = status r'.
Proof.
  intros a a' s r r' c c' seg rest rest' Hseg Hv Hv' Hr Hr'.
  assert (Hm : major_of (process_version a) = parseInt seg).
  { rewrite Hv. unfold major_of, slice1. cbn [tl].
    rewrite (proj2 (@split_first_segment seg rest Hseg)). reflexivity. }
  assert (Hm' : major_of (process_version a') = parseInt seg).
  { destruct Hv' as [-> | ->]; unfold major_of, slice1; cbn [tl].
    - rewrite (proj2 (@split_first_segment seg rest' Hseg)). reflexivity.
    - rewrite (proj1 (@split_first_segment seg [] Hseg)). reflexivity. }
  split; [exact Hm|]. split; [exact Hm'|].
  destruct (version_status a s) as (q & Hq & _ & Hs).
  destruct (version_status a' s) as (q' & Hq' & _ & Hs').
  rewrite (emits_unique Hr (logs_emits Hq)).
  rewrite (emits_unique Hr' (logs_emits Hq')).
  rewrite Hs, Hs', Hm, Hm'. reflexivity.
Qed.

Lemma version_probe_reads_major_segment_witness :
  exists r r',
    emits (checkNodeVersion healthy) start r
    /\ emits (checkNodeVersion (with_version "x20")) start r'
    /\ status r = status r'.
Proof.
  destruct (version_status healthy start) as (r & Hr & _).
  destruct (version_status (with_version "x20") start) as (r' & Hr' & _).
  exists r, r'.
  split; [exact (logs_emits Hr)|]. split; [exact (logs_emits Hr')|].
  apply (@version_probe_reads_major_segment healthy (with_version "x20")
           start r r' 118%N 120%N (lit "20") (lit "11.0") []).
  - reflexivity.
  - reflexivity.
  - right. vm_compute. reflexivity.
  - exact (logs_emits Hr).
  - exact (logs_emits Hr').
Defined.

Lemma seven_statuses a :
  exists r1 r2 r3 r4 r5 r6 r7,
    results (fst (check_environment a)) = [r1; r2; r3; r4; r5; r6; r7]
    /\ map name [r1; r2; r3; r4; r5; r6; r7] = probe_names
    /\ map status [r1; r2; r3; r4; r5; r6; r7] = statuses_of a.
Proof.
  destruct (results_of_run a) as [Hn Hs].
  destruct (results (fst (check_environment a)))
    as [|r1 [|r2 [|r3 [|r4 [|r5 [|r6 [|r7 [|r8 rs]]]]]]]];
    try discriminate Hn.
  exists r1, r2, r3, r4, r5, r6, r7. auto.
Qed.

(** X11: only the two key probes warn: in every run a result with the
    status warn carries the name of one of the two keys, so a run has at
    most two warnings. *)
Theorem warnings_only_from_keys :
  forall a,
    (forall r,
       In r (results (fst (check_environment a))) ->
       status r = warn ->
       name r = lit "Anthropic API Key" \/ name r = lit "Gemini API Key")
    /\ tally warn (results (fst (check_environment a))) <= 2.
Proof.
  intros a.
  destruct (seven_statuses a)
    as (r1 & r2 & r3 & r4 & r5 & r6 & r7 & -> & Hn & Hs).
  unfold probe_names, statuses_of in *. cbn [map] in Hn, Hs.
  injection Hn as N1 N2 N3 N4 N5 N6 N7.
  injection Hs as S1 S2 S3 S4 S5 S6 S7.
  split.
  - intros r Hin Hw. cbn [In] in Hin.
    destruct Hin as [<- | [<- | [<- | [<- | [<- | [<- | [<- | []]]]]]]];
      auto;
      match goal with
      | H : status ?x = verdict _ |- _ =>
          rewrite Hw in H; symmetry in H;
          exfalso; exact (verdict_not_warn _ H)
      end.
  - rewrite !tally_cons. unfold tally. cbn [filter length].
    rewrite S1, S4, S5, S6, S7.
    assert (Hv : forall b, Status_eqb (verdict b) warn = false)
      by (intros []; reflexivity).
    rewrite !Hv.
    destruct (Status_eqb (status r2) warn),
             (Status_eqb (status r3) warn); cbn [Nat.add]; lia.
Qed.

(** X12: the browser probe logs pass, with its fixed message, exactly
    when the launch and the close of the browser both fulfil; a browser
    that launches and then fails to close is reported as failed; the
    probe never warns. *)
Theorem browser_probe_pass :
  forall a s,
    exists r,
      emits (checkPlaywright a) s r
      /\ (status r = pass
          <-> exists b,
                chromium_launch a true (launches s) = Fulfilled b
                /\ close b = Fulfilled tt)
      /\ (status r = pass ->
          message r = lit "Chromium is installed and working")
      /\ (status r <> pass -> status r = fail).
Proof.
  intros a s.
  destruct (playwright_status a s) as (r & Hlogs & _ & Hs & Hm).
  exists r. split; [exact (logs_emits Hlogs)|].
  unfold browser_ok, browser_error in *.
  destruct (chromium_launch a true (launches s)) as [b|e].
  - destruct (close b) as [[]|e] eqn:Hc; cbn [settled verdict] in Hs.
    + split; [split; [intros _; exists b; auto|intros _; exact Hs]|].
      split; [intros _; exact Hm|]. intros Hn. contradiction.
    + split.
      { split; [rewrite Hs; discriminate|].
        intros (b' & Hb & Hc'). injection Hb as <-.
        rewrite Hc in Hc'. discriminate Hc'. }
      split; [rewrite Hs; discriminate|]. intros _. exact Hs.
  - cbn [verdict] in Hs. split.
    { split; [rewrite Hs; discriminate|].
      intros (b' & Hb & _). discriminate Hb. }
    split; [rewrite Hs; discriminate|]. intros _. exact Hs.
Qed.

Lemma network_ok_calls launched :
  network_ok launched = true
  <-> exists b p,
        launched = Fulfilled b
        /\ newPage b = Fulfilled p
        /\ goto p (lit "https://example.com") 10000%N = Fulfilled tt
        /\ close b = Fulfilled tt.
Proof.
  unfold network_ok. split.
  - destruct launched as [b|e]; [|discriminate].
    destruct (newPage b) as [p|e] eqn:Hp; [|discriminate].
    rewrite andb_true_iff, !settled_unit. intros [Hg Hc].
    exists b, p. auto.
  - intros (b & p & -> & -> & -> & ->). reflexivity.
Qed.

Lemma network_pass_record a s :
  network_ok (chromium_launch a true (launches s)) = true ->
  emits (checkNetwork a) s
    {| name := lit "Network Access"; status := pass;
       message := lit "Can reach external websites" |}.
Proof.
  intros H. apply network_ok_calls in H.
  destruct H as (b & p & Hl & Hp & Hg & Hc).
  unfold emits, checkNetwork. run_block.
  rewrite Hl; cbn. rewrite Hp; cbn. rewrite Hg; cbn. rewrite Hc; cbn.
  eexists. split; reflexivity.
Qed.

(** X13: the network probe logs pass, with its fixed message, exactly
    when the launch, the new page, the navigation to https://example.com
    under a timeout of 10000 and the close all fulfil; otherwise it logs
    fail, never warn. *)
Theorem network_probe_pass :
  forall a s,
    exists r,
      emits (checkNetwork a) s r
      /\ (status r = pass
          <-> exists b p,
                chromium_launch a true (launches s) = Fulfilled b
                /\ newPage b = Fulfilled p
                /\ goto p (lit "https://example.com") 10000%N = Fulfilled tt
                /\ close b = Fulfilled tt)
      /\ (status r = pass -> message r = lit "Can reach external websites")
      /\ (status r <> pass -> status r = fail).
Proof.
  intros a s.
  destruct (network_status a s) as (r & Hlogs & _ & Hs & _).
  exists r. split; [exact (logs_emits Hlogs)|].
  split; [rewrite Hs, verdict_pass; apply network_ok_calls|].
  split.
  - intros Hp. rewrite Hs in Hp. apply verdict_pass in Hp.
    rewrite (emits_unique (logs_emits Hlogs) (network_pass_record a s Hp)).
    reflexivity.
  - intros Hn. rewrite Hs in *.
    destruct (network_ok (chromium_launch a true (launches s)));
      [exfalso; apply Hn; reflexivity|reflexivity].
Qed.
